(** * The job-lifecycle manager of the RCE agent (server.go)

    A shallow embedding of the agent's server: the id allocator, the job
    registry, the runner goroutine [runJob], the two output collectors
    [copyPipeToStringArray], status snapshots [CopyStatus] and the RPC
    handlers [StartJob], [GetJobStatus], [StopJob] and [GetJobs].

    Concurrency is modelled by interleaving.  Every goroutine is a program
    counter carrying its live local variables; one transition executes one
    statement, or one whole critical section (the code between a [Lock] and
    the matching [Unlock]), because every write to a job's status happens
    under the job's mutexes.  What the operating system decides (pipe
    creation, process start, exit status, the bytes of a stream, the wall
    clock, the capacity picked when a slice grows) is supplied to the
    transition as an [input]; the one assumption made on it is [start_ok].
    The wall clock in particular may return any value, also one below an
    earlier reading; [steady] singles out the runs in which it was not set
    back.  StopJob reads the job's state and pid without taking a mutex;
    here it reads them between critical sections only.  A panic ends the
    process: a crashed world has no transition.

    Go slices are modelled with their backing arrays: a [slice] is a header
    (array, length, capacity) and [append] writes in place while capacity
    is left, so that copies of a header alias the same array, as in Go. *)

From Stdlib Require Import ZArith Lia String Ascii List.
From stdpp Require Import base option list gmap strings.

(** ** Constants and machine integers *)

(* const ( STATUS_NOT_STARTED int64 = iota; STATUS_RUNNING; STATUS_COMPLETED ) *)
Definition STATUS_NOT_STARTED : Z := 0.
Definition STATUS_RUNNING : Z := 1.
Definition STATUS_COMPLETED : Z := 2.

(* uint64 arithmetic wraps around *)
Definition uint64_modulus : Z := 2 ^ 64.
Definition wrap64 (z : Z) : Z := z mod uint64_modulus.

(** ** Slices and their backing arrays *)

Record slice := Slice { s_ptr : nat; s_len : nat; s_cap : nat }.

(* the nil slice, zero value of []string *)
Definition nil_slice : slice := Slice 0 0 0.

(* The store of backing arrays; array [a] is [arrs !! a], its length is its
   capacity. *)
Abbreviation arrays := (list (list string)).

(* the elements a slice header denotes *)
Definition read_slice (arrs : arrays) (sl : slice) : list string :=
  take (s_len sl) (default [] (arrs !! s_ptr sl)).

(* Go's append(sl, x): in place when len < cap, otherwise a fresh array of
   the capacity [newcap] chosen by the runtime (larger than the old
   length), to which the old elements are copied. *)
Definition append (arrs : arrays) (sl : slice) (x : string) (newcap : nat)
  : option (arrays * slice) :=
  if s_len sl <? s_cap sl then
    match arrs !! s_ptr sl with
    | Some a =>
        Some (<[s_ptr sl := <[s_len sl := x]> a]> arrs,
              Slice (s_ptr sl) (S (s_len sl)) (s_cap sl))
    | None => None
    end
  else if s_len sl <? newcap then
    Some (arrs ++ [read_slice arrs sl ++ x :: replicate (newcap - S (s_len sl)) EmptyString],
          Slice (length arrs) (S (s_len sl)) newcap)
  else None.

(** ** Messages *)

(** Modelled from the spec: the request message pb.JobRequest (generated
    protobuf code, not under src/): name, command name, arguments. *)
Record JobRequest := mkJobRequest {
  rq_JobName : string;
  rq_CommandName : string;
  rq_Arguments : list string }.

(** Modelled from the spec: the status message pb.JobStatus (generated
    protobuf code, not under src/), with the fields server.go reads and
    writes.  [Stdout] and [Stderr] are slice headers; [Args] is never
    written after creation and is kept as a value. *)
Record JobStatus := mkJobStatus {
  JobID : Z;
  JobName : string;
  Status : Z;
  CommandName : string;
  PID : Z;
  StartTime : Z;
  FinishTime : Z;
  ExitCode : Z;
  Error : string;
  Stdout : slice;
  Stderr : slice;
  Args : list string }.

Definition set_Status (v : Z) (j : JobStatus) : JobStatus :=
  mkJobStatus (JobID j) (JobName j) v (CommandName j) (PID j) (StartTime j)
    (FinishTime j) (ExitCode j) (Error j) (Stdout j) (Stderr j) (Args j).
Definition set_PID (v : Z) (j : JobStatus) : JobStatus :=
  mkJobStatus (JobID j) (JobName j) (Status j) (CommandName j) v (StartTime j)
    (FinishTime j) (ExitCode j) (Error j) (Stdout j) (Stderr j) (Args j).
Definition set_FinishTime (v : Z) (j : JobStatus) : JobStatus :=
  mkJobStatus (JobID j) (JobName j) (Status j) (CommandName j) (PID j) (StartTime j)
    v (ExitCode j) (Error j) (Stdout j) (Stderr j) (Args j).
Definition set_ExitCode (v : Z) (j : JobStatus) : JobStatus :=
  mkJobStatus (JobID j) (JobName j) (Status j) (CommandName j) (PID j) (StartTime j)
    (FinishTime j) v (Error j) (Stdout j) (Stderr j) (Args j).
Definition set_Error (v : string) (j : JobStatus) : JobStatus :=
  mkJobStatus (JobID j) (JobName j) (Status j) (CommandName j) (PID j) (StartTime j)
    (FinishTime j) (ExitCode j) v (Stdout j) (Stderr j) (Args j).
Definition set_Stdout (v : slice) (j : JobStatus) : JobStatus :=
  mkJobStatus (JobID j) (JobName j) (Status j) (CommandName j) (PID j) (StartTime j)
    (FinishTime j) (ExitCode j) (Error j) v (Stderr j) (Args j).
Definition set_Stderr (v : slice) (j : JobStatus) : JobStatus :=
  mkJobStatus (JobID j) (JobName j) (Status j) (CommandName j) (PID j) (StartTime j)
    (FinishTime j) (ExitCode j) (Error j) (Stdout j) v (Args j).

(** ** Reading lines: bufio.Reader.ReadString *)

(* A reader over a pipe: the bytes the pipe still delivers before its read
   fails (end of stream, or the pipe being closed). *)
Abbreviation Reader := string.

Definition newline : ascii := "010"%char.

(* the prefix up to and including the first newline, and what follows it *)
Fixpoint split_newline (s : string) : option (string * string) :=
  match s with
  | EmptyString => None
  | String c s' =>
      if Ascii.eqb c newline then Some (String c EmptyString, s')
      else match split_newline s' with
           | Some (l, rest) => Some (String c l, rest)
           | None => None
           end
  end.

(* r.ReadString('\n'): the data up to and including the delimiter and a nil
   error; when the read fails before a delimiter is found, the data read so
   far and the error (true stands for err != nil). *)
Definition ReadString (r : Reader) : string * bool * Reader :=
  match split_newline r with
  | Some (l, rest) => (l, false, rest)
  | None => (r, true, EmptyString)
  end.

(** ** The output collector: copyPipeToStringArray *)

Inductive collector_pc :=
| C_none                              (* goroutine not started *)
| C_read (r : Reader)                 (* lines 265, 270: s, err = r.ReadString('\n') *)
| C_append (s : string) (r : Reader)  (* lines 266-269: err == nil; lock, append, unlock *)
| C_done.                             (* loop left, rc closed *)

Section Collector.

(* strings.TrimSpace of the Go library; the development is parametric in it *)
Variable TrimSpace : string → string.

(* One step of the collector: the line it appends (if any) and where it
   continues. *)
Definition collector_step (pc : collector_pc) : option (option string * collector_pc) :=
  match pc with
  | C_read r =>
      let '(s, err, r') := ReadString r in
      if err then Some (None, C_done) else Some (None, C_append s r')
  | C_append s r => Some (Some (TrimSpace s), C_read r)
  | C_none | C_done => None
  end.

(* The collector run to completion on a sequence [dest]. *)
Fixpoint collector_run (fuel : nat) (pc : collector_pc) (dest : list string)
  : option (list string) :=
  match collector_step pc with
  | None => Some dest
  | Some (out, pc') =>
      match fuel with
      | O => None
      | S fuel' =>
          collector_run fuel' pc'
            (match out with Some x => dest ++ [x] | None => dest end)
      end
  end.

Definition copyPipeToStringArray (rc : Reader) (dest : list string) : option (list string) :=
  collector_run (2 * String.length rc + 1) (C_read rc) dest.

End Collector.

(* The complete lines of a stream, in the spec's words: the text is cut
   after every delimiter; what follows the last delimiter is dropped. *)
Fixpoint complete_lines_from (cur : string) (s : string) : list string :=
  match s with
  | EmptyString => []
  | String c s' =>
      if Ascii.eqb c newline
      then (cur +:+ String c EmptyString) :: complete_lines_from EmptyString s'
      else complete_lines_from (cur +:+ String c EmptyString) s'
  end.

Definition complete_lines (s : string) : list string :=
  complete_lines_from EmptyString s.

(** ** Goroutines *)

(* What cmd.Wait() returns: nil, an *exec.ExitError (whose Sys() is a
   syscall.WaitStatus with the given ExitStatus, or is not one), or another
   error. *)
Inductive wait_result :=
| WaitNil
| WaitExitError (status : option Z) (msg : string)
| WaitOtherError (msg : string).

(* The return statements of runJob. *)
Inductive return_site :=
| RetNotFound                        (* line 284 *)
| RetStdoutPipe                      (* line 301 *)
| RetStderrPipe                      (* line 312 *)
| RetDone (exitError : wait_result). (* line 377 *)

(* Program points of runJob, with the live locals. *)
Inductive runner_pc :=
| R_unspawned                                  (* before go s.runJob(newJob) *)
| R_lookup                                     (* line 277 *)
| R_stdout_pipe (commandToExecute : string)    (* lines 292-303 *)
| R_stderr_pipe (commandToExecute : string)    (* lines 306-314 *)
| R_start (commandToExecute : string)          (* line 320: cmd.Start() *)
| R_set_running (process : option Z)           (* lines 324-332; cmd.Process is nil or has a Pid *)
| R_wait                                       (* line 338: cmd.Wait() *)
| R_finalize (exitError : wait_result)         (* lines 344-374 *)
| R_returned (site : return_site)
| R_panicked.                                  (* nil dereference at line 330 *)

(* A job object (the runningJob and the pb.JobStatus it points to) together
   with the goroutines started for it: runJob and one collector per stream,
   each started at most once per job object.  The three mutexes are
   implicit: a critical section is one transition. *)
Record jobcell := mkCell {
  cell_job : JobStatus;
  cell_run : runner_pc;
  cell_out : collector_pc;
  cell_err : collector_pc }.

Inductive stream := StdoutStream | StderrStream.

Definition status_slice (st : stream) (j : JobStatus) : slice :=
  match st with StdoutStream => Stdout j | StderrStream => Stderr j end.

Definition cell_slice (st : stream) (c : jobcell) : slice :=
  status_slice st (cell_job c).

Definition cell_collector (st : stream) (c : jobcell) : collector_pc :=
  match st with StdoutStream => cell_out c | StderrStream => cell_err c end.

Definition set_cell_job (j : JobStatus) (c : jobcell) : jobcell :=
  mkCell j (cell_run c) (cell_out c) (cell_err c).
Definition set_cell_run (pc : runner_pc) (c : jobcell) : jobcell :=
  mkCell (cell_job c) pc (cell_out c) (cell_err c).
Definition set_cell_collector (st : stream) (pc : collector_pc) (c : jobcell) : jobcell :=
  match st with
  | StdoutStream => mkCell (cell_job c) (cell_run c) pc (cell_err c)
  | StderrStream => mkCell (cell_job c) (cell_run c) (cell_out c) pc
  end.
Definition set_cell_slice (st : stream) (sl : slice) (c : jobcell) : jobcell :=
  match st with
  | StdoutStream => set_cell_job (set_Stdout sl (cell_job c)) c
  | StderrStream => set_cell_job (set_Stderr sl (cell_job c)) c
  end.

(* The errors the handlers build with fmt.Errorf. *)
Inductive rpc_error :=
| ErrJobNotFound (id : Z)                          (* "job=%d: Job not found." *)
| ErrJobNotRunning (id : Z)                        (* "job=%d: Job not running." *)
| ErrProcessNotFound (id pid : Z) (err : string)   (* "job=%d: Process with pid %d not found: %v" *)
| ErrKill (id pid : Z) (err : string).             (* "job=%d: Error killing pid %d: %v" *)

(* The RPC a handler goroutine serves. *)
Inductive rpc_call :=
| CallStartJob (details : JobRequest)
| CallGetJobStatus (id : Z)
| CallStopJob (id : Z)
| CallGetJobs (since : Z).

(* Program points of the handlers, with the live locals.  Job objects are
   referred to by their address in the heap. *)
Inductive handler_pc :=
| SJ_getNewJobID (details : JobRequest)        (* line 232 *)
| SJ_new (details : JobRequest) (id : Z)       (* lines 233-248: time.Now(), the two objects *)
| SJ_insert (newJob : nat)                     (* lines 250-252 *)
| SJ_go (newJob : nat)                         (* line 254 *)
| SJ_copy (newJob : nat)                       (* lines 256-257 *)
| GS_lookup (id : Z)                           (* getJobStatus, lines 184-189 *)
| GS_copy (job : nat)                          (* lines 191-192 *)
| ST_lookup (id : Z)                           (* StopJob, lines 199-204 *)
| ST_check (id : Z) (job : nat)                (* lines 206-208 *)
| ST_signal (id : Z) (job : nat)               (* lines 211-224 *)
| GJ_list (since : Z)                          (* GetJobs, lines 161-164 *)
| Returned (jc : option JobStatus) (err : option rpc_error)
| ReturnedStream (sent : list Z) (err : option rpc_error).

(* What cmd.StdoutPipe() / cmd.StderrPipe() return: a pipe, with the bytes
   its reader will deliver, or an error. *)
Inductive pipe_result :=
| PipeOk (content : string)
| PipeErr (msg : string).

(* What the environment supplies to one transition. *)
Inductive input :=
| INone
| ITime (t : Z)                         (* time.Now().Unix() *)
| IPipe (r : pipe_result)
| IStart (process : option Z)           (* cmd.Start(): the child's pid, or failure *)
| IWait (w : wait_result)               (* cmd.Wait() *)
| ICap (newcap : nat)                   (* capacity picked if append has to grow *)
| ISignal (find sig : option string).   (* errors of os.FindProcess and proc.Signal *)

(** ** The server and its memory *)

Record world := mkWorld {
  (* the server struct *)
  allJobs : gmap Z nat;
  runnableCommands : gmap string string;
  nextID : Z;
  (* memory: job objects and backing arrays *)
  heap : list jobcell;
  arrs : arrays;
  (* the handler goroutines, each with the call it serves *)
  handlers : list (rpc_call * handler_pc);
  (* the last value time.Now().Unix() returned *)
  clock : Z;
  (* a goroutine panicked: the process is gone *)
  crashed : bool }.

Definition set_allJobs v (w : world) : world :=
  mkWorld v (runnableCommands w) (nextID w) (heap w) (arrs w) (handlers w) (clock w) (crashed w).
Definition set_nextID v (w : world) : world :=
  mkWorld (allJobs w) (runnableCommands w) v (heap w) (arrs w) (handlers w) (clock w) (crashed w).
Definition set_heap v (w : world) : world :=
  mkWorld (allJobs w) (runnableCommands w) (nextID w) v (arrs w) (handlers w) (clock w) (crashed w).
Definition set_arrs v (w : world) : world :=
  mkWorld (allJobs w) (runnableCommands w) (nextID w) (heap w) v (handlers w) (clock w) (crashed w).
Definition set_handlers v (w : world) : world :=
  mkWorld (allJobs w) (runnableCommands w) (nextID w) (heap w) (arrs w) v (clock w) (crashed w).
Definition set_clock v (w : world) : world :=
  mkWorld (allJobs w) (runnableCommands w) (nextID w) (heap w) (arrs w) (handlers w) v (crashed w).
Definition set_crashed v (w : world) : world :=
  mkWorld (allJobs w) (runnableCommands w) (nextID w) (heap w) (arrs w) (handlers w) (clock w) v.

(* NewServer: no jobs, nextID 0, the whitelist of the configuration file.
   The clock starts at the time of creation. *)
Definition NewServer (commands : gmap string string) (now : Z) : world :=
  mkWorld ∅ commands 0 [] [] [] now false.

(* getNewJobID, atomic under IDm. *)
Definition getNewJobID (w : world) : Z * world :=
  let myID := nextID w in
  (myID, set_nextID (wrap64 (nextID w + 1)) w).

(* CopyStatus, atomic under the three mutexes: jc := &pb.JobStatus{};
   *jc = *(rj.Status).  The struct is copied field by field, the slice
   headers among them. *)
Definition CopyStatus (rj : jobcell) : JobStatus :=
  let src := cell_job rj in
  mkJobStatus (JobID src) (JobName src) (Status src) (CommandName src) (PID src)
    (StartTime src) (FinishTime src) (ExitCode src) (Error src)
    (Stdout src) (Stderr src) (Args src).

(* GetJobs: the function returns nil at line 164, right after taking the
   read lock; the loop of lines 165-172 is never reached, nothing is sent
   on the stream. *)
Definition GetJobs (w : world) (since : Z) : list Z * option rpc_error :=
  ([], None).

(* The ids the documented behaviour would send: "GetJobs list all jobs
   that have started after since", the filter of lines 165-172. *)
Definition jobs_started_after (w : world) (since : Z) : list Z :=
  List.filter
    (λ id, match allJobs w !! id ≫= (λ a, heap w !! a) with
           | Some c => bool_decide (since < StartTime (cell_job c))%Z
           | None => false
           end)
    (map_to_list (allJobs w)).*1.

(** ** Transitions *)

(* The assumption made on the operating system: a child that cmd.Start()
   has started has a positive pid. *)
Definition start_ok (process : option Z) : bool :=
  match process with Some pid => (0 <? pid)%Z | None => true end.

Definition update_cell (a : nat) (c : jobcell) (w : world) : world :=
  set_heap (<[a := c]> (heap w)) w.

Definition set_handler (h : nat) (call : rpc_call) (pc : handler_pc) (w : world) : world :=
  set_handlers (<[h := (call, pc)]> (handlers w)) w.

(* The critical section of the three early returns of runJob (lines
   280-283, 297-300, 308-311). *)
Definition fail_before_start (msg : string) (job : JobStatus) : JobStatus :=
  set_Error msg (set_Status STATUS_COMPLETED job).

(* Collecting the exit code, lines 354-370. *)
Definition record_exit (exitError : wait_result) (job : JobStatus) : JobStatus :=
  match exitError with
  | WaitExitError (Some status) msg => set_Error msg (set_ExitCode status job)
  | WaitExitError None msg => set_Error msg job
  | WaitOtherError msg => set_Error msg job
  | WaitNil => set_ExitCode 0 job
  end.

(* One transition of runJob for the job object at address [a]. *)
Definition runJob_step (a : nat) (c : jobcell) (i : input) (w : world) : option world :=
  let job := cell_job c in
  match cell_run c, i with
  | R_lookup, INone =>
      match runnableCommands w !! CommandName job with
      | None =>
          Some (update_cell a
                  (set_cell_run (R_returned RetNotFound)
                     (set_cell_job
                        (fail_before_start ("Unable to find job for " +:+ CommandName job) job) c)) w)
      | Some commandToExecute =>
          Some (update_cell a (set_cell_run (R_stdout_pipe commandToExecute) c) w)
      end
  | R_stdout_pipe cmd, IPipe (PipeErr msg) =>
      Some (update_cell a
              (set_cell_run (R_returned RetStdoutPipe)
                 (set_cell_job (fail_before_start msg job) c)) w)
  | R_stdout_pipe cmd, IPipe (PipeOk content) =>
      (* go copyPipeToStringArray(stdoutPipe, &job.Status.Stdout, job.stdoutM) *)
      Some (update_cell a
              (set_cell_run (R_stderr_pipe cmd)
                 (set_cell_collector StdoutStream (C_read content) c)) w)
  | R_stderr_pipe cmd, IPipe (PipeErr msg) =>
      Some (update_cell a
              (set_cell_run (R_returned RetStderrPipe)
                 (set_cell_job (fail_before_start msg job) c)) w)
  | R_stderr_pipe cmd, IPipe (PipeOk content) =>
      Some (update_cell a
              (set_cell_run (R_start cmd)
                 (set_cell_collector StderrStream (C_read content) c)) w)
  | R_start cmd, IStart process =>
      (* cmd.Start(); its error is not looked at *)
      if start_ok process
      then Some (update_cell a (set_cell_run (R_set_running process) c) w)
      else None
  | R_set_running process, INone =>
      let job' := set_Status STATUS_RUNNING job in
      match process with
      | Some pid =>
          Some (update_cell a (set_cell_run R_wait (set_cell_job (set_PID pid job') c)) w)
      | None =>
          (* cmd.Process is nil: cmd.Process.Pid panics, with statusM held *)
          Some (set_crashed true
                  (update_cell a (set_cell_run R_panicked (set_cell_job job' c)) w))
      end
  | R_wait, IWait exitError =>
      Some (update_cell a (set_cell_run (R_finalize exitError) c) w)
  | R_finalize exitError, ITime t =>
      (* job.Status.FinishTime = time.Now().Unix(), whatever the clock says *)
      Some (set_clock t
              (update_cell a
                 (set_cell_run (R_returned (RetDone exitError))
                    (set_cell_job
                       (set_Status STATUS_COMPLETED
                          (record_exit exitError (set_FinishTime t job))) c)) w))
  | _, _ => None
  end.

Section Semantics.

Variable TrimSpace : string → string.

(* One transition of the collector of stream [st] of the job object at [a]. *)
Definition copyPipe_step (a : nat) (st : stream) (c : jobcell) (i : input) (w : world)
  : option world :=
  match collector_step TrimSpace (cell_collector st c), i with
  | Some (None, pc'), INone =>
      Some (update_cell a (set_cell_collector st pc' c) w)
  | Some (Some line, pc'), ICap newcap =>
      (* lines 267-269: under the stream's mutex, the trimmed line is
         appended to the job's sequence *)
      match append (arrs w) (cell_slice st c) line newcap with
      | Some (arrs', sl') =>
          Some (set_arrs arrs'
                  (update_cell a (set_cell_collector st pc' (set_cell_slice st sl' c)) w))
      | None => None
      end
  | _, _ => None
  end.

(* The first program point of a handler. *)
Definition entry (call : rpc_call) : handler_pc :=
  match call with
  | CallStartJob details => SJ_getNewJobID details
  | CallGetJobStatus id => GS_lookup id
  | CallStopJob id => ST_lookup id
  | CallGetJobs since => GJ_list since
  end.

(* One transition of handler [h], which serves [call] and stands at [pc]. *)
Definition handler_step (h : nat) (call : rpc_call) (pc : handler_pc) (i : input) (w : world)
  : option world :=
  match pc, i with
  (* StartJob *)
  | SJ_getNewJobID details, INone =>
      let '(id, w') := getNewJobID w in
      Some (set_handler h call (SJ_new details id) w')
  | SJ_new details id, ITime t =>
      (* StartTime: time.Now().Unix(), whatever the clock says *)
      let newJobStatus :=
        mkJobStatus id (rq_JobName details) STATUS_NOT_STARTED (rq_CommandName details)
          0 t 0 (-1) EmptyString nil_slice nil_slice (rq_Arguments details) in
      let newJob := mkCell newJobStatus R_unspawned C_none C_none in
      Some (set_handler h call (SJ_insert (length (heap w)))
              (set_clock t (set_heap (heap w ++ [newJob]) w)))
  | SJ_insert newJob, INone =>
      match heap w !! newJob with
      | Some c =>
          Some (set_handler h call (SJ_go newJob)
                  (set_allJobs (<[JobID (cell_job c) := newJob]> (allJobs w)) w))
      | None => None
      end
  | SJ_go newJob, INone =>
      match heap w !! newJob with
      | Some c =>
          Some (set_handler h call (SJ_copy newJob)
                  (update_cell newJob (set_cell_run R_lookup c) w))
      | None => None
      end
  | SJ_copy newJob, INone =>
      match heap w !! newJob with
      | Some c => Some (set_handler h call (Returned (Some (CopyStatus c)) None) w)
      | None => None
      end
  (* getJobStatus *)
  | GS_lookup id, INone =>
      match allJobs w !! id with
      | None => Some (set_handler h call (Returned None (Some (ErrJobNotFound id))) w)
      | Some job => Some (set_handler h call (GS_copy job) w)
      end
  | GS_copy job, INone =>
      match heap w !! job with
      | Some c => Some (set_handler h call (Returned (Some (CopyStatus c)) None) w)
      | None => None
      end
  (* StopJob *)
  | ST_lookup id, INone =>
      match allJobs w !! id with
      | None => Some (set_handler h call (Returned None (Some (ErrJobNotFound id))) w)
      | Some job => Some (set_handler h call (ST_check id job) w)
      end
  | ST_check id job, INone =>
      match heap w !! job with
      | Some c =>
          if bool_decide (Status (cell_job c) ≠ STATUS_RUNNING)
          then Some (set_handler h call (Returned None (Some (ErrJobNotRunning id))) w)
          else Some (set_handler h call (ST_signal id job) w)
      | None => None
      end
  | ST_signal id job, ISignal find sig =>
      match heap w !! job with
      | Some c =>
          let pid := PID (cell_job c) in
          match find, sig with
          | Some err, _ =>
              Some (set_handler h call (Returned None (Some (ErrProcessNotFound id pid err))) w)
          | None, Some err =>
              Some (set_handler h call (Returned None (Some (ErrKill id pid err))) w)
          | None, None =>
              (* return s.getJobStatus(id.JobID) *)
              Some (set_handler h call (GS_lookup id) w)
          end
      | None => None
      end
  (* GetJobs *)
  | GJ_list since, INone =>
      let '(sent, err) := GetJobs w since in
      Some (set_handler h call (ReturnedStream sent err) w)
  | _, _ => None
  end.

(* The moves of the system: a call arrives and gets a handler goroutine,
   or some goroutine makes one transition. *)
Inductive event :=
| Call (call : rpc_call)
| StepHandler (h : nat) (i : input)
| StepRunner (a : nat) (i : input)
| StepCollector (a : nat) (st : stream) (i : input).

Definition exec (e : event) (w : world) : option world :=
  if crashed w then None else
  match e with
  | Call call => Some (set_handlers (handlers w ++ [(call, entry call)]) w)
  | StepHandler h i =>
      match handlers w !! h with
      | Some (call, pc) => handler_step h call pc i w
      | None => None
      end
  | StepRunner a i =>
      match heap w !! a with
      | Some c => runJob_step a c i w
      | None => None
      end
  | StepCollector a st i =>
      match heap w !! a with
      | Some c => copyPipe_step a st c i w
      | None => None
      end
  end.

Fixpoint run (tr : list event) (w : world) : option world :=
  match tr with
  | [] => Some w
  | e :: tr' =>
      match exec e w with
      | Some w' => run tr' w'
      | None => None
      end
  end.

(* The states the server can be in. *)
Definition reachable (w : world) : Prop :=
  ∃ commands now tr, run tr (NewServer commands now) = Some w.

End Semantics.

(** ** Observations *)

(* The sequence of captured lines a JobStatus shows for a stream. *)
Definition lines (w : world) (st : stream) (j : JobStatus) : list string :=
  read_slice (arrs w) (status_slice st j).




Section Logs.

Variable TrimSpace : string → string.


End Logs.

(* strings.TrimSpace on ASCII text (its fast path: tab, newline, vertical
   tab, form feed, carriage return and space are cut from both ends); the
   instance used to run the model on examples. *)
Definition is_ascii_space (c : ascii) : bool :=
  let n := nat_of_ascii c in
  ((9 <=? n) && (n <=? 13)) || (n =? 32).

Fixpoint trim_left (s : string) : string :=
  match s with
  | String c s' => if is_ascii_space c then trim_left s' else s
  | EmptyString => EmptyString
  end.

Fixpoint trim_right (s : string) : string :=
  match s with
  | String c s' =>
      match trim_right s' with
      | EmptyString => if is_ascii_space c then EmptyString else String c EmptyString
      | t => String c t
      end
  | EmptyString => EmptyString
  end.

Definition TrimSpaceASCII (s : string) : string := trim_right (trim_left s).

(** ** Invariants *)

(* What the program point of runJob says about the job's status. *)
Definition not_started (j : JobStatus) : Prop :=
  Status j = STATUS_NOT_STARTED ∧ Error j = EmptyString ∧ ExitCode j = (-1)%Z ∧ PID j = 0%Z.

Definition pc_status (pc : runner_pc) (j : JobStatus) : Prop :=
  match pc with
  | R_unspawned | R_lookup | R_stdout_pipe _ | R_stderr_pipe _ | R_start _ =>
      not_started j
  | R_set_running process =>
      not_started j ∧ ∀ pid, process = Some pid → (0 < pid)%Z
  | R_wait | R_finalize _ =>
      Status j = STATUS_RUNNING ∧ Error j = EmptyString ∧ ExitCode j = (-1)%Z ∧ (0 < PID j)%Z
  | R_panicked => Status j = STATUS_RUNNING
  | R_returned RetNotFound =>
      Status j = STATUS_COMPLETED ∧ ExitCode j = (-1)%Z ∧ PID j = 0%Z ∧
      Error j = "Unable to find job for " +:+ CommandName j
  | R_returned RetStdoutPipe | R_returned RetStderrPipe =>
      Status j = STATUS_COMPLETED ∧ ExitCode j = (-1)%Z ∧ PID j = 0%Z
  | R_returned (RetDone exitError) =>
      Status j = STATUS_COMPLETED ∧ (0 < PID j)%Z ∧
      (exitError = WaitNil → ExitCode j = 0%Z ∧ Error j = EmptyString)
  end.

Definition cell_ok (c : jobcell) : Prop :=
  pc_status (cell_run c) (cell_job c).

(* A handler of StartJob between allocating its job object and starting
   the runner refers to [a]. *)
Definition prepares (pc : handler_pc) (a : nat) : Prop :=
  pc = SJ_insert a ∨ pc = SJ_go a.

(* The job objects a handler holds exist; a job object whose runner is yet
   to be started belongs to one handler. *)
Definition handler_ok (w : world) (h : nat) (pc : handler_pc) : Prop :=
  match pc with
  | SJ_insert a | SJ_go a =>
      (∃ c, heap w !! a = Some c ∧ cell_run c = R_unspawned) ∧
      (∀ h' call' pc', handlers w !! h' = Some (call', pc') → prepares pc' a → h' = h)
  | SJ_copy a | GS_copy a | ST_check _ a | ST_signal _ a => a < length (heap w)
  | _ => True
  end.

(* A handler is inside the function of its call, or has returned what that
   function returns. *)
Definition serves (call : rpc_call) (pc : handler_pc) : Prop :=
  match call, pc with
  | CallStartJob d, SJ_getNewJobID d' => d' = d
  | CallStartJob d, SJ_new d' _ => d' = d
  | CallStartJob _, (SJ_insert _ | SJ_go _ | SJ_copy _) => True
  | CallStartJob _, Returned (Some _) None => True
  | CallGetJobStatus id, GS_lookup id' => id' = id
  | CallGetJobStatus _, (GS_copy _ | Returned _ _) => True
  | CallStopJob id, (ST_lookup id' | ST_check id' _ | ST_signal id' _ | GS_lookup id') => id' = id
  | CallStopJob _, (GS_copy _ | Returned _ _) => True
  | CallGetJobs _, (GJ_list _ | ReturnedStream _ _) => True
  | _, _ => False
  end.

(* A slice header fits its backing array. *)
Definition slice_ok (ars : arrays) (sl : slice) : Prop :=
  s_len sl ≤ s_cap sl ∧
  (0 < s_cap sl → ∃ arr, ars !! s_ptr sl = Some arr ∧ length arr = s_cap sl).

(* A copied header shows no more than the job's own header for the same
   array. *)
Definition snapshot_ok (w : world) (sl : slice) : Prop :=
  s_len sl = 0 ∨
  (s_ptr sl < length (arrs w) ∧
   ∀ a c st, heap w !! a = Some c → 0 < s_cap (cell_slice st c) →
             s_ptr (cell_slice st c) = s_ptr sl → s_len sl ≤ s_len (cell_slice st c)).

Record Inv (w : world) : Prop := mkInv {
  inv_cells : ∀ a c, heap w !! a = Some c → cell_ok c;
  inv_handlers : ∀ h call pc, handlers w !! h = Some (call, pc) →
                   handler_ok w h pc ∧ serves call pc;
  inv_registry : ∀ id a, allJobs w !! id = Some a → a < length (heap w);
  inv_slices : ∀ a c st, heap w !! a = Some c → slice_ok (arrs w) (cell_slice st c);
  inv_owner : ∀ a1 a2 c1 c2 st1 st2,
      heap w !! a1 = Some c1 → heap w !! a2 = Some c2 →
      0 < s_cap (cell_slice st1 c1) → 0 < s_cap (cell_slice st2 c2) →
      s_ptr (cell_slice st1 c1) = s_ptr (cell_slice st2 c2) → a1 = a2 ∧ st1 = st2;
  inv_snapshots : ∀ h call jc err st,
      handlers w !! h = Some (call, Returned (Some jc) err) →
      snapshot_ok w (status_slice st jc) }.

(* A stream made of the lines [ls], each followed by its newline, and of a
   last piece [partial]. *)
Definition no_newline (l : string) : Prop := split_newline l = None.

Definition with_newline (l : string) : string := l +:+ String newline EmptyString.

Definition stream_of (ls : list string) (partial : string) : string :=
  foldr (λ l rest, l +:+ String newline rest) partial ls.

Global Instance stream_eq_dec : EqDecision stream.
Proof. solve_decision. Defined.

(** ** The lifecycle *)

(* The moves of a job's state the lifecycle allows in one transition. *)
Definition forward (s s' : Z) : Prop :=
  s' = s ∨
  (s = STATUS_NOT_STARTED ∧ s' = STATUS_RUNNING) ∨
  (s = STATUS_RUNNING ∧ s' = STATUS_COMPLETED) ∨
  (s = STATUS_NOT_STARTED ∧ s' = STATUS_COMPLETED).

(* runJob has left through one of its returns before cmd.Start(). *)
Definition early_return (pc : runner_pc) : Prop :=
  pc = R_returned RetNotFound ∨ pc = R_returned RetStdoutPipe ∨
  pc = R_returned RetStderrPipe.

(* What the final status of a job whose process exited with status 0 has
   to show. *)
Definition completed_ok (j : JobStatus) : Prop :=
  Status j = STATUS_COMPLETED ∧ ExitCode j = 0%Z ∧ Error j = EmptyString ∧
  (0 < PID j)%Z.

(* The wall clock.  [reading e] is the value time.Now().Unix() returns in
   the transition [e], if [e] reads the clock (lines 236 and 347).  The
   clock is steady along a trace when no reading is below the one before
   it, the first not below [now]: nobody sets the clock back. *)
Definition reading (e : event) : option Z :=
  match e with
  | StepHandler _ (ITime t) | StepRunner _ (ITime t) => Some t
  | _ => None
  end.

Fixpoint steady (now : Z) (tr : list event) : bool :=
  match tr with
  | [] => true
  | e :: tr' =>
      match reading e with
      | Some t => (now <=? t)%Z && steady t tr'
      | None => steady now tr'
      end
  end.

(* What a steady clock gives: no job started after the last reading, and
   a job that finished did not finish before it started. *)
Definition timed (w : world) : Prop :=
  ∀ a c, heap w !! a = Some c →
    (StartTime (cell_job c) ≤ clock w)%Z ∧
    (∀ exitError, cell_run c = R_returned (RetDone exitError) →
       (StartTime (cell_job c) ≤ FinishTime (cell_job c))%Z).

(* The transitions StartJob still has to make before it has returned. *)
Definition StartJob_steps_left (pc : handler_pc) : nat :=
  match pc with
  | SJ_getNewJobID _ => 5
  | SJ_new _ _ => 4
  | SJ_insert _ => 3
  | SJ_go _ => 2
  | SJ_copy _ => 1
  | _ => 0
  end.

(** ** Further invariants *)

(* What runJob records of the result of cmd.Wait(), lines 354-370. *)
Definition exit_recorded (exitError : wait_result) (j : JobStatus) : Prop :=
  match exitError with
  | WaitNil => ExitCode j = 0%Z ∧ Error j = EmptyString
  | WaitExitError (Some status) msg => ExitCode j = status ∧ Error j = msg
  | WaitExitError None msg | WaitOtherError msg => ExitCode j = (-1)%Z ∧ Error j = msg
  end.

(* What the program point of runJob says about the finish time and about
   the collectors it has started. *)
Definition pc_fields (pc : runner_pc) (c : jobcell) : Prop :=
  let j := cell_job c in
  match pc with
  | R_unspawned | R_lookup | R_stdout_pipe _
  | R_returned RetNotFound | R_returned RetStdoutPipe =>
      FinishTime j = 0%Z ∧ cell_out c = C_none ∧ cell_err c = C_none
  | R_stderr_pipe _ | R_returned RetStderrPipe =>
      FinishTime j = 0%Z ∧ cell_err c = C_none
  | R_start _ | R_set_running _ | R_wait | R_finalize _ => FinishTime j = 0%Z
  | R_panicked =>
      FinishTime j = 0%Z ∧ PID j = 0%Z ∧ ExitCode j = (-1)%Z ∧ Error j = EmptyString
  | R_returned (RetDone exitError) => exit_recorded exitError j
  end.

Definition cell_more (w : world) (c : jobcell) : Prop :=
  pc_fields (cell_run c) c ∧
  (∀ st, cell_collector st c = C_none → cell_slice st c = nil_slice) ∧
  (crashed w = false → cell_run c ≠ R_panicked).

(* A status no reader should call torn. *)
Definition consistent (j : JobStatus) : Prop :=
  (Status j = STATUS_NOT_STARTED →
   PID j = 0%Z ∧ ExitCode j = (-1)%Z ∧ Error j = EmptyString ∧ FinishTime j = 0%Z) ∧
  (Status j = STATUS_RUNNING →
   (0 < PID j)%Z ∧ ExitCode j = (-1)%Z ∧ Error j = EmptyString ∧ FinishTime j = 0%Z) ∧
  (Status j = STATUS_COMPLETED →
   (PID j = 0%Z ∧ ExitCode j = (-1)%Z ∧ FinishTime j = 0%Z) ∨ (0 < PID j)%Z) ∧
  (Status j = STATUS_NOT_STARTED ∨ Status j = STATUS_RUNNING ∨ Status j = STATUS_COMPLETED).

(* The fields of a status that are set once, by StartJob. *)
Definition same_identity (j j' : JobStatus) : Prop :=
  JobID j' = JobID j ∧ JobName j' = JobName j ∧ CommandName j' = CommandName j ∧
  StartTime j' = StartTime j ∧ Args j' = Args j.

(* A status carries what the request asked for. *)
Definition echoes (details : JobRequest) (j : JobStatus) : Prop :=
  JobName j = rq_JobName details ∧ CommandName j = rq_CommandName details ∧
  Args j = rq_Arguments details.

(* The id a call is about. *)
Definition call_id (call : rpc_call) : option Z :=
  match call with
  | CallGetJobStatus id | CallStopJob id => Some id
  | _ => None
  end.

(* What a handler knows about the job it works on. *)
Definition handler_more (w : world) (call : rpc_call) (pc : handler_pc) : Prop :=
  match pc with
  | SJ_insert a =>
      ∃ c, heap w !! a = Some c ∧ ∀ d, call = CallStartJob d → echoes d (cell_job c)
  | SJ_go a | SJ_copy a =>
      ∃ c, heap w !! a = Some c ∧ is_Some (allJobs w !! JobID (cell_job c)) ∧
           ∀ d, call = CallStartJob d → echoes d (cell_job c)
  | GS_copy a =>
      ∃ c, heap w !! a = Some c ∧ ∀ id, call_id call = Some id → JobID (cell_job c) = id
  | ST_check id _ | ST_signal id _ => is_Some (allJobs w !! id)
  | GS_lookup id => (∃ id', call = CallStopJob id') → is_Some (allJobs w !! id)
  | Returned (Some jc) err =>
      consistent jc ∧ err = None ∧
      (∀ id, call_id call = Some id → JobID jc = id) ∧
      (∀ d, call = CallStartJob d → echoes d jc ∧ is_Some (allJobs w !! JobID jc))
  | Returned None err =>
      ∃ id, call_id call = Some id ∧
        match err with
        | Some (ErrJobNotFound id') => id' = id
        | Some (ErrJobNotRunning id') => id' = id ∧ call = CallStopJob id
        | Some (ErrProcessNotFound id' _ _) | Some (ErrKill id' _ _) =>
            id' = id ∧ call = CallStopJob id ∧ is_Some (allJobs w !! id)
        | None => False
        end
  | _ => True
  end.

Record Inv2 (w : world) : Prop := mkInv2 {
  inv2_cells : ∀ a c, heap w !! a = Some c → cell_more w c;
  inv2_registry : ∀ id a, allJobs w !! id = Some a →
                    ∃ c, heap w !! a = Some c ∧ JobID (cell_job c) = id;
  inv2_handlers : ∀ h call pc, handlers w !! h = Some (call, pc) → handler_more w call pc }.

Section Pending.

Variable TrimSpace : string → string.

(* The lines a collector has still to append. *)
Definition pending (pc : collector_pc) : list string :=
  match pc with
  | C_read r => map TrimSpace (complete_lines r)
  | C_append s r => TrimSpace s :: map TrimSpace (complete_lines r)
  | C_none | C_done => []
  end.

End Pending.

(* The program point at which runJob creates the pipe of a stream. *)
Definition creates_pipe (st : stream) (pc : runner_pc) : Prop :=
  match st with
  | StdoutStream => ∃ cmd, pc = R_stdout_pipe cmd
  | StderrStream => ∃ cmd, pc = R_stderr_pipe cmd
  end.

(** ** Example runs *)

Module Examples.

(* The whitelist of the examples: echo-test is an executable that prints
   hello, broken names a file that cannot be executed. *)
Definition commands : gmap string string :=
  <["echo-test" := "/bin/echo"]> (<["broken" := "/no/such/file"]> ∅).

Definition server0 : world := NewServer commands 100.

Definition request (commandName : string) : JobRequest :=
  mkJobRequest "t1" commandName ["hello"].

(* StartJob of handler 0 up to go s.runJob(newJob); the job object is at
   address 0. *)
Definition submit (commandName : string) : list event :=
  [ Call (CallStartJob (request commandName));
    StepHandler 0 INone; StepHandler 0 (ITime 100);
    StepHandler 0 INone; StepHandler 0 INone ].

(* StartJob returns its snapshot. *)
Definition reply : list event := [ StepHandler 0 INone ].

Definition hello_line : string := "hello" +:+ String newline EmptyString.

(* runJob up to cmd.Wait(): command found, both pipes, the child 4242. *)
Definition start_process : list event :=
  [ StepRunner 0 INone;
    StepRunner 0 (IPipe (PipeOk hello_line));
    StepRunner 0 (IPipe (PipeOk EmptyString));
    StepRunner 0 (IStart (Some 4242%Z));
    StepRunner 0 INone ].

(* The stdout collector reads the line, appends it, reads the end of the
   stream. *)
Definition read_line : list event := [ StepCollector 0 StdoutStream INone ].
Definition append_line : list event := [ StepCollector 0 StdoutStream (ICap 1) ].
Definition read_end : list event := [ StepCollector 0 StdoutStream INone ].

(* The child exits with status 0 and runJob finishes at time 101. *)
Definition finish : list event :=
  [ StepRunner 0 (IWait WaitNil); StepRunner 0 (ITime 101) ].

(* A job that runs to its end, the collector having finished first. *)
Definition echo_run : list event :=
  submit "echo-test" ++ reply ++ start_process ++
  read_line ++ append_line ++ read_end ++ finish.

(* The same job, but the collector has read its line and not yet appended
   it when runJob finishes. *)
Definition late_collector_run : list event :=
  submit "echo-test" ++ reply ++ start_process ++ read_line ++ finish.

(* A whitelisted command whose executable cannot be started: cmd.Start()
   fails and leaves cmd.Process nil. *)
Definition broken_run : list event :=
  submit "broken" ++ reply ++
  [ StepRunner 0 INone;
    StepRunner 0 (IPipe (PipeOk EmptyString));
    StepRunner 0 (IPipe (PipeOk EmptyString));
    StepRunner 0 (IStart None);
    StepRunner 0 INone ].

(* The job of echo_run on a host whose clock is set back while the process
   runs: time.Now().Unix() returns 99 when runJob finishes. *)
Definition clock_set_back_run : list event :=
  submit "echo-test" ++ reply ++ start_process ++
  read_line ++ append_line ++ read_end ++
  [ StepRunner 0 (IWait WaitNil); StepRunner 0 (ITime 99) ].

(* A command that is not whitelisted, the runner being scheduled before
   StartJob takes its snapshot. *)
Definition eager_runner_run : list event :=
  submit "nope" ++ [ StepRunner 0 INone ] ++ reply.

(* The job at address 0 prints two lines.  The collector appends the first
   into a fresh array of capacity 4, GetJobStatus (handler 1) takes a
   snapshot, and the collector appends the second line in place, into the
   array the snapshot's header points to as well. *)
Definition two_lines : string :=
  "a" +:+ String newline ("b" +:+ String newline EmptyString).

Definition before_snapshot : list event :=
  submit "echo-test" ++ reply ++
  [ StepRunner 0 INone;
    StepRunner 0 (IPipe (PipeOk two_lines));
    StepRunner 0 (IPipe (PipeOk EmptyString));
    StepRunner 0 (IStart (Some 4242%Z));
    StepRunner 0 INone;
    StepCollector 0 StdoutStream INone;
    StepCollector 0 StdoutStream (ICap 4) ].

Definition snapshot : list event :=
  [ Call (CallGetJobStatus 0); StepHandler 1 INone; StepHandler 1 INone ].

Definition after_snapshot : list event :=
  [ StepCollector 0 StdoutStream INone;
    StepCollector 0 StdoutStream (ICap 0);
    StepRunner 0 (IWait WaitNil); StepRunner 0 (ITime 101) ].

End Examples.

(** ** Further example runs *)

Module MoreExamples.

Import Examples.

(* The job runs, prints its line, and the process exits with status 3. *)
Definition failing_run : list event :=
  submit "echo-test" ++ reply ++ start_process ++ read_line ++ append_line ++ read_end ++
  [ StepRunner 0 (IWait (WaitExitError (Some 3%Z) "exit status 3"));
    StepRunner 0 (ITime 102) ].

(* The job is submitted and its runner has found the command. *)
Definition found_run : list event :=
  submit "echo-test" ++ reply ++ [ StepRunner 0 INone ].

(* The job is submitted, its runner not yet scheduled. *)
Definition submitted_run (commandName : string) : list event :=
  submit commandName ++ reply.

(* GetJobStatus of job 0 (handler 1) up to its copy. *)
Definition poll_lookup : list event :=
  [ Call (CallGetJobStatus 0); StepHandler 1 INone ].

(* StopJob of job 0 (handler 1): lookup, check, signal delivered. *)
Definition stop_signal : list event :=
  [ Call (CallStopJob 0); StepHandler 1 INone; StepHandler 1 INone;
    StepHandler 1 (ISignal None None) ].

(* The stdout collector of job 0 reads and appends two lines. *)
Definition collect_two : list event :=
  [ StepCollector 0 StdoutStream INone; StepCollector 0 StdoutStream (ICap 2);
    StepCollector 0 StdoutStream INone; StepCollector 0 StdoutStream (ICap 0);
    StepCollector 0 StdoutStream INone ].

End MoreExamples.

(** * Properties *)

(** ** The output collector *)

Lemma split_newline_length s l rest :
  split_newline s = Some (l, rest) →
  String.length s = String.length l + String.length rest ∧ 0 < String.length l.
Proof.
  revert l rest. induction s as [|c s IH]; intros l rest; simpl; [done|].
  destruct (Ascii.eqb c newline).
  - intros [= <- <-]. simpl. lia.
  - destruct (split_newline s) as [[l' rest']|]; [|done].
    intros [= <- <-]. destruct (IH _ _ eq_refl). simpl. lia.
Qed.

Lemma string_app_cons cur c l :
  (cur +:+ String c EmptyString) +:+ l = cur +:+ String c l.
Proof.
  induction cur as [|d cur IH]; [done|].
  change (String d ((cur +:+ String c EmptyString) +:+ l) = String d (cur +:+ String c l)).
  by rewrite IH.
Qed.

Lemma complete_lines_from_split cur s :
  complete_lines_from cur s =
  match split_newline s with
  | Some (l, rest) => (cur +:+ l) :: complete_lines rest
  | None => []
  end.
Proof.
  revert cur. induction s as [|c s IH]; intros cur; simpl; [done|].
  destruct (Ascii.eqb c newline); [done|].
  rewrite IH. destruct (split_newline s) as [[l rest]|]; [|done].
  f_equal. apply string_app_cons.
Qed.

Lemma collector_run_read TrimSpace fuel r dest :
  2 * String.length r + 1 ≤ fuel →
  collector_run TrimSpace fuel (C_read r) dest
  = Some (dest ++ map TrimSpace (complete_lines r)).
Proof.
  revert r dest. induction fuel as [fuel IH] using lt_wf_ind. intros r dest Hfuel.
  unfold complete_lines. rewrite complete_lines_from_split.
  destruct fuel as [|fuel]; [lia|].
  simpl. unfold ReadString.
  destruct (split_newline r) as [[l rest]|] eqn:Hsplit.
  - apply split_newline_length in Hsplit as [Hlen Hpos].
    destruct fuel as [|fuel]; [lia|].
    simpl. rewrite IH by lia. by rewrite <- app_assoc.
  - destruct fuel; simpl; by rewrite app_nil_r.
Qed.

Lemma split_newline_app l rest :
  no_newline l → split_newline (l +:+ String newline rest) = Some (with_newline l, rest).
Proof.
  unfold no_newline, with_newline. induction l as [|c l IH]; intros Hl.
  - reflexivity.
  - change (String c l +:+ String newline rest) with (String c (l +:+ String newline rest)).
    change (String c l +:+ String newline EmptyString)
      with (String c (l +:+ String newline EmptyString)).
    simpl in *. destruct (Ascii.eqb c newline); [done|].
    destruct (split_newline l) as [[]|]; [done|]. by rewrite IH.
Qed.

Lemma complete_lines_stream_of ls partial :
  Forall no_newline ls → no_newline partial →
  complete_lines (stream_of ls partial) = map with_newline ls.
Proof.
  intros Hls Hp. induction Hls as [|l ls Hl Hls IH]; simpl.
  - unfold complete_lines. by rewrite complete_lines_from_split, Hp.
  - unfold complete_lines at 1. rewrite complete_lines_from_split.
    rewrite split_newline_app by done. by rewrite IH.
Qed.

(** C9. For every stream content and every initial sequence, the collector
    terminates and leaves in the job's sequence the initial entries
    followed by exactly the trimmed complete (newline-terminated) lines of
    the stream, in the order of the stream.  A last piece without its
    newline is dropped: for a stream made of the lines [ls], each followed
    by its newline, and of a last piece without newline, the complete
    lines are the lines [ls]. *)
Theorem collector_appends_complete_lines TrimSpace (content : string) (dest : list string) :
  copyPipeToStringArray TrimSpace content dest
  = Some (dest ++ map TrimSpace (complete_lines content))
  ∧ ∀ ls partial,
      Forall no_newline ls → no_newline partial → content = stream_of ls partial →
      complete_lines content = map with_newline ls.
Proof.
  split.
  - by apply collector_run_read.
  - intros ls partial Hls Hp ->. by apply complete_lines_stream_of.
Qed.

Lemma collector_appends_complete_lines_witness :
  let content := stream_of ["hello "; "  world"] "part" in
  copyPipeToStringArray TrimSpaceASCII content ["first"] = Some ["first"; "hello"; "world"]
  ∧ complete_lines content = [with_newline "hello "; with_newline "  world"].
Proof.
  intros content. split.
  - exact (proj1 (collector_appends_complete_lines TrimSpaceASCII content ["first"])).
  - apply (proj2 (collector_appends_complete_lines TrimSpaceASCII content ["first"])
             ["hello "; "  world"] "part").
    + repeat constructor.
    + reflexivity.
    + reflexivity.
Defined.

(** ** Invariants of the reachable states *)

(* Case analysis on a transition [H : exec e w = Some w']: one goal per
   statement of the handlers, of runJob and of the collector, with [w']
   replaced by the world that statement produces. *)
Ltac exec_lookup H :=
  match type of H with
  | match ?l !! ?i with _ => _ end = _ =>
      let Hl := fresh "Hlook" in
      destruct (l !! i) as [?|] eqn:Hl; [|discriminate H]
  end.

Ltac exec_finish H :=
  repeat (case_match; try discriminate H); simplify_eq.

Ltac exec_start H :=
  unfold exec in H;
  match type of H with
  | (if crashed ?w then _ else _) = _ =>
      let Hcrashed := fresh "Hcrashed" in
      destruct (crashed w) eqn:Hcrashed; [discriminate H|]
  end.

Ltac exec_handler H :=
  exec_start H; exec_lookup H;
  match type of H with
  | match ?p with _ => _ end = _ =>
      let call := fresh "call" in
      let pc := fresh "pc" in
      destruct p as [call pc];
      unfold handler_step, GetJobs, getNewJobID in H;
      destruct pc
  end;
  try discriminate H;
  try match type of H with
  | match ?i with _ => _ end = _ => destruct i
  end; try discriminate H; exec_finish H.

Ltac exec_runner H :=
  exec_start H; exec_lookup H;
  unfold runJob_step, start_ok in H;
  match type of H with
  | match cell_run ?c with _ => _ end = _ =>
      let Hpc := fresh "Hpc" in destruct (cell_run c) eqn:Hpc
  end;
  try discriminate H;
  try match type of H with
  | match ?i with _ => _ end = _ => destruct i
  end; try discriminate H; exec_finish H.

Ltac exec_collector H :=
  exec_start H; exec_lookup H;
  unfold copyPipe_step, collector_step in H;
  match type of H with
  | context [cell_collector ?st ?c] =>
      let Hpc := fresh "Hpc" in destruct (cell_collector st c) eqn:Hpc
  end; try discriminate H; exec_finish H.

Ltac exec_cases H :=
  match type of H with
  | exec _ ?e _ = _ =>
      destruct e;
      [ exec_start H; injection H as <-
      | exec_handler H
      | exec_runner H
      | exec_collector H ]
  end.

Ltac bool_hyps :=
  repeat match goal with
  | H : (_ <=? _)%Z = true |- _ => apply Z.leb_le in H
  | H : (_ <=? _)%Z = false |- _ => apply Z.leb_gt in H
  | H : (_ <? _)%Z = true |- _ => apply Z.ltb_lt in H
  | H : (_ <? _)%Z = false |- _ => apply Z.ltb_ge in H
  | H : (_ <? _) = true |- _ => apply Nat.ltb_lt in H
  | H : (_ <? _) = false |- _ => apply Nat.ltb_ge in H
  | H : bool_decide _ = true |- _ => apply bool_decide_eq_true in H
  | H : bool_decide _ = false |- _ => apply bool_decide_eq_false in H
  end.


Ltac heap_lookup Hl :=
  first
  [ apply lookup_snoc_Some in Hl as [[? Hl]|[-> <-]]
  | apply list_lookup_insert_Some in Hl as [(<- & <- & ?)|[? Hl]] ].

Ltac old_cell Hcells :=
  match goal with
  | Hc : heap ?w !! ?a = Some ?c |- _ =>
      let Hp := fresh "Hstat" in
      pose proof (Hcells _ _ Hc) as Hp; unfold cell_ok in Hp;
      match goal with
      | Hpc : cell_run c = _ |- _ => rewrite Hpc in Hp
      | _ => idtac
      end
  end.


Ltac unspawned Hhand :=
  match goal with
  | Hh : handlers ?w !! ?h = Some (_, SJ_go ?a) |- _ =>
      let Hun := fresh "Hun" in
      destruct (Hhand _ _ _ Hh) as [[(? & ? & Hun) _] _]; simplify_eq;
      try rewrite Hun in *
  end.


Lemma cell_ok_set_collector st pc c :
  cell_ok c → cell_ok (set_cell_collector st pc c).
Proof. by destruct st. Qed.

Lemma cell_ok_set_slice st sl c :
  cell_ok c → cell_ok (set_cell_slice st sl c).
Proof. by destruct st. Qed.

Lemma exec_cells TrimSpace e w w' :
  exec TrimSpace e w = Some w' → Inv w →
  ∀ a c, heap w' !! a = Some c → cell_ok c.
Proof.
  intros H HI. pose proof (inv_cells _ HI) as Hcells.
  pose proof (inv_handlers _ HI) as Hhand.
  exec_cases H; bool_hyps; simpl; intros a' c' Hl;
    try (by eapply Hcells);
    heap_lookup Hl;
    try (repeat first [apply cell_ok_set_collector | apply cell_ok_set_slice];
         by eapply Hcells);
    try old_cell Hcells; try unspawned Hhand; clear Hcells Hhand HI.
  all: unfold cell_ok, pc_status, not_started, fail_before_start, record_exit in *;
       simpl in *; repeat case_match; simpl in *; destruct_and?;
       repeat split; try done; try lia; try congruence; eauto.
Qed.

Lemma exec_heap_length TrimSpace e w w' :
  exec TrimSpace e w = Some w' → length (heap w) ≤ length (heap w').
Proof.
  intros H. exec_cases H; simpl; rewrite ?length_insert, ?length_app; simpl; lia.
Qed.

Lemma exec_registry TrimSpace e w w' :
  exec TrimSpace e w = Some w' → Inv w →
  ∀ id a, allJobs w' !! id = Some a → a < length (heap w').
Proof.
  intros H HI. pose proof (inv_registry _ HI) as Hreg.
  exec_cases H; simpl; rewrite ?length_insert, ?length_app; simpl;
    try (intros id' a' Hl; specialize (Hreg _ _ Hl); lia).
  intros id' a' [[_ <-]|[_ Hl]]%lookup_insert_Some.
  - by eapply lookup_lt_Some.
  - by eapply Hreg.
Qed.

Lemma serves_entry call : serves call (entry call).
Proof. by destruct call. Qed.

Lemma exec_serves TrimSpace e w w' :
  exec TrimSpace e w = Some w' → Inv w →
  ∀ h call pc, handlers w' !! h = Some (call, pc) → serves call pc.
Proof.
  intros H HI.
  assert (Hs : ∀ h call pc, handlers w !! h = Some (call, pc) → serves call pc).
  { intros h call pc Hh. by destruct (inv_handlers _ HI _ _ _ Hh). }
  clear HI.
  exec_cases H; simpl; intros h' call' pc' Hl; try (by eapply Hs).
  { apply lookup_snoc_Some in Hl as [[_ Hl]|[_ [= <- <-]]];
      [by eapply Hs|apply serves_entry]. }
  all: apply list_lookup_insert_Some in Hl as [(<- & [= <- <-] & _)|[_ Hl]];
    [|by eapply Hs].
  all: match goal with Hh : handlers _ !! _ = Some _ |- _ => apply Hs in Hh end.
  all: destruct call; simpl in *; done.
Qed.

Lemma handler_ok_frame w w' h pc :
  handler_ok w h pc →
  length (heap w) ≤ length (heap w') →
  (∀ a c, prepares pc a → heap w !! a = Some c → cell_run c = R_unspawned →
          ∃ c', heap w' !! a = Some c' ∧ cell_run c' = R_unspawned) →
  (∀ a h' call' pc', prepares pc a →
          handlers w' !! h' = Some (call', pc') → prepares pc' a →
          h' = h ∨ ∃ call'' pc'', handlers w !! h' = Some (call'', pc'') ∧ prepares pc'' a) →
  handler_ok w' h pc.
Proof.
  intros Hok Hlen Hcell Huniq.
  destruct pc; simpl in *; try done; try lia.
  - destruct Hok as [(c & Hc & Hun) Hu]. split.
    + eapply Hcell; eauto. by left.
    + intros h' call' pc' Hh' Hp.
      destruct (Huniq newJob h' call' pc') as [?|(call'' & pc'' & Hh'' & Hp'')]; eauto.
      by left.
  - destruct Hok as [(c & Hc & Hun) Hu]. split.
    + eapply Hcell; eauto. by right.
    + intros h' call' pc' Hh' Hp.
      destruct (Huniq newJob h' call' pc') as [?|(call'' & pc'' & Hh'' & Hp'')]; eauto.
      by right.
Qed.

Lemma cell_run_set_collector st pc c : cell_run (set_cell_collector st pc c) = cell_run c.
Proof. by destruct st. Qed.

Lemma cell_run_set_slice st sl c : cell_run (set_cell_slice st sl c) = cell_run c.
Proof. by destruct st. Qed.

Lemma prepares_entry call a : ¬ prepares (entry call) a.
Proof. by destruct call; intros [?|?]. Qed.

Lemma exec_handler_ok TrimSpace e w w' :
  exec TrimSpace e w = Some w' → Inv w →
  ∀ h call pc, handlers w' !! h = Some (call, pc) → handler_ok w' h pc.
Proof.
  intros H HI.
  assert (Hok : ∀ h call pc, handlers w !! h = Some (call, pc) → handler_ok w h pc).
  { intros h call pc Hh. by destruct (inv_handlers _ HI _ _ _ Hh). }
  pose proof (inv_registry _ HI) as Hreg.
  pose proof (exec_heap_length _ _ _ _ H) as Hlen.
  destruct e as [call0|h0 i|a0 i|a0 st i].
  - (* a call arrives *)
    exec_start H; injection H as <-. intros h call pc Hl. simpl in Hl.
    apply lookup_snoc_Some in Hl as [[Hlt Hl]|[-> [= <- <-]]].
    + eapply handler_ok_frame; [by eapply Hok|done|by eauto|].
      intros a h' call' pc' Hp Hh' Hp'. simpl in Hh'.
      apply lookup_snoc_Some in Hh' as [[_ Hh']|[-> [= <- <-]]]; [by eauto 10|].
      by apply prepares_entry in Hp'.
    + by destruct call0.
  - (* a handler moves *)
    exec_handler H; intros h call' pc Hl; simpl in Hl, Hlen.
    all: pose proof (Hok _ _ _ Hlook) as Hstep.
    all: apply list_lookup_insert_Some in Hl as [(<- & [= <- <-] & Hlt)|[Hne Hl]].
    all: try (simpl in *; rewrite ?length_insert, ?length_app; simpl;
              first [done | lia | by eapply Hreg | by eapply lookup_lt_Some]).
    all: try pose proof (Hok _ _ _ Hl) as Hold.
    all: try (eapply handler_ok_frame; [exact Hold|done|by eauto|];
              intros a h' call'' pc'' Hp Hh' Hp'; simpl in Hh';
              apply list_lookup_insert_Some in Hh' as [(<- & [= <- <-] & _)|[_ Hh']];
              [|by eauto 10];
              by destruct Hp').
    + (* the new job object is unspawned and nobody else refers to it *)
      split.
      * eexists. split; [by apply list_lookup_middle|done].
      * intros h' call' pc' Hh' Hp'.
        apply list_lookup_insert_Some in Hh' as [(? & _)|[_ Hh']]; [done|].
        pose proof (Hok _ _ _ Hh') as Hok'.
        destruct Hp' as [->| ->]; simpl in Hok';
          destruct Hok' as [(c & Hc%lookup_lt_Some & _) _]; lia.
    + eapply handler_ok_frame; [exact Hold|simpl; rewrite length_app; lia| |].
      * intros a c Hp Hc Hun. simpl. eexists. split; [by apply lookup_app_l_Some|done].
      * intros a h' call'' pc'' Hp Hh' Hp'. simpl in Hh'.
        apply list_lookup_insert_Some in Hh' as [(<- & [= <- <-] & _)|[_ Hh']];
          [|by eauto 10].
        exfalso. destruct Hp' as [[= <-]|[=]].
        destruct Hp as [->| ->]; simpl in Hold;
          destruct Hold as [(c & Hc%lookup_lt_Some & _) _]; lia.
    + (* from SJ_insert to SJ_go *)
      simpl in Hstep. destruct Hstep as [Hcell Huniq]. split; [done|].
      intros h' call' pc' Hh' Hp'.
      apply list_lookup_insert_Some in Hh' as [(? & _)|[_ Hh']]; [done|].
      by eapply Huniq.
    + eapply handler_ok_frame; [exact Hold|done|by eauto|].
      intros a h' call'' pc'' Hp Hh' Hp'. simpl in Hh'.
      apply list_lookup_insert_Some in Hh' as [(<- & [= <- <-] & _)|[_ Hh']];
        [|by eauto 10].
      right. destruct Hp' as [[=]|[= <-]]. do 2 eexists. split; [done|]. by left.
    + (* the runner is started *)
      eapply handler_ok_frame; [exact Hold|simpl; by rewrite length_insert| |].
      * intros a c Hp Hc Hun. simpl.
        destruct (decide (newJob = a)) as [->|Hna];
          [|rewrite list_lookup_insert_ne by done; eauto].
        exfalso. apply Hne.
        destruct Hp as [->| ->]; simpl in Hold; destruct Hold as [_ Huniq];
          eapply Huniq; eauto; by right.
      * intros a h' call'' pc'' Hp Hh' Hp'. simpl in Hh'.
        apply list_lookup_insert_Some in Hh' as [(<- & [= <- <-] & _)|[_ Hh']];
          [|by eauto 10].
        by destruct Hp'.
  - (* a runner moves *)
    exec_runner H; intros h call pc Hl; simpl in Hl.
    all: (eapply handler_ok_frame; [by eapply Hok|done| |by eauto 10]).
    all: intros a1 c1 Hp Hc1 Hun1; simpl.
    all: (destruct (decide (a0 = a1)) as [->|Hne];
          [congruence|rewrite list_lookup_insert_ne by done; eauto]).
  - (* a collector moves *)
    exec_collector H; intros h call pc Hl; simpl in Hl.
    all: (eapply handler_ok_frame; [by eapply Hok|done| |by eauto 10]).
    all: intros a1 c1 Hp Hc1 Hun1; simpl.
    all: (destruct (decide (a0 = a1)) as [->|Hne];
          [|rewrite list_lookup_insert_ne by done; eauto]).
    all: simplify_eq; rewrite list_lookup_insert_eq by (by eapply lookup_lt_Some).
    all: eexists; split; [done|].
    all: by rewrite ?cell_run_set_collector, ?cell_run_set_slice.
Qed.

(** ** Slices: what append does to the store of arrays *)

Lemma append_inv ars sl x newcap ars' sl' :
  append ars sl x newcap = Some (ars', sl') →
  s_len sl' = S (s_len sl) ∧
  ((∃ arr, s_len sl < s_cap sl ∧ ars !! s_ptr sl = Some arr ∧
           ars' = <[s_ptr sl := <[s_len sl := x]> arr]> ars ∧
           s_ptr sl' = s_ptr sl ∧ s_cap sl' = s_cap sl) ∨
   (s_cap sl ≤ s_len sl ∧ s_len sl < newcap ∧
    ars' = ars ++ [read_slice ars sl ++ x :: replicate (newcap - S (s_len sl)) EmptyString] ∧
    s_ptr sl' = length ars ∧ s_cap sl' = newcap)).
Proof.
  unfold append. intros H. repeat case_match; simplify_eq; bool_hyps; simpl.
  - split; [done|]. left. eauto 10.
  - split; [done|]. right. eauto 10.
Qed.

Lemma length_read_slice ars sl :
  slice_ok ars sl → length (read_slice ars sl) = s_len sl.
Proof.
  intros [Hle Harr]. unfold read_slice. rewrite length_take.
  destruct (decide (s_cap sl = 0)) as [Hz|Hnz]; [lia|].
  destruct Harr as (arr & -> & Hlen); [lia|]. simpl. lia.
Qed.

Lemma append_read ars sl x newcap ars' sl' :
  slice_ok ars sl → append ars sl x newcap = Some (ars', sl') →
  read_slice ars' sl' = read_slice ars sl ++ [x].
Proof.
  intros Hok H. pose proof (length_read_slice _ _ Hok) as Hlen.
  destruct Hok as [Hle Harr].
  apply append_inv in H as [Hl [(arr & Hlt & Ha & -> & Hp & Hc)|(Hge & Hlt & -> & Hp & Hc)]];
    unfold read_slice in *; rewrite Hl, Hp.
  - destruct Harr as (arr' & Ha' & Hlen'); [lia|]. simplify_eq.
    rewrite list_lookup_insert_eq by (by eapply lookup_lt_Some).
    rewrite Ha. simpl.
    erewrite take_S_r by (apply list_lookup_insert_eq; lia).
    by rewrite take_insert_ge.
  - rewrite list_lookup_middle by done. simpl.
    rewrite cons_middle, (assoc_L (++)).
    apply take_app_length'. rewrite length_app. simpl. lia.
Qed.

Lemma append_slice_ok ars sl x newcap ars' sl' :
  slice_ok ars sl → append ars sl x newcap = Some (ars', sl') → slice_ok ars' sl'.
Proof.
  intros Hok H. pose proof (length_read_slice _ _ Hok) as Hlen.
  destruct Hok as [Hle Harr].
  apply append_inv in H as [Hl [(arr & Hlt & Ha & -> & Hp & Hc)|(Hge & Hlt & -> & Hp & Hc)]];
    split; rewrite ?Hl, ?Hp, ?Hc; try lia; intros _.
  - destruct Harr as (arr' & Ha' & Hlen'); [lia|]. simplify_eq.
    eexists. split; [apply list_lookup_insert_eq; by eapply lookup_lt_Some|].
    by rewrite length_insert.
  - eexists. split; [by apply list_lookup_middle|].
    rewrite length_app. simpl. rewrite length_replicate. lia.
Qed.

(* Headers of other slices stay fitted. *)
Lemma append_frame_ok ars sl x newcap ars' sl' sl2 :
  append ars sl x newcap = Some (ars', sl') → slice_ok ars sl2 → slice_ok ars' sl2.
Proof.
  intros H [Hle Harr]. split; [done|]. intros Hpos.
  destruct (Harr Hpos) as (arr2 & Ha2 & Hlen2).
  apply append_inv in H as [Hl [(arr & Hlt & Ha & -> & Hp & Hc)|(Hge & Hlt & -> & Hp & Hc)]].
  - destruct (decide (s_ptr sl = s_ptr sl2)) as [Heq|Hne].
    + rewrite Heq in *. simplify_eq. eexists.
      split; [apply list_lookup_insert_eq; by eapply lookup_lt_Some|].
      by rewrite length_insert.
    + exists arr2. by rewrite list_lookup_insert_ne.
  - exists arr2. split; [by apply lookup_app_l_Some|done].
Qed.

(* A header that shows no more than the appended slice did keeps its
   elements. *)
Lemma append_frame_read ars sl x newcap ars' sl' sl2 :
  append ars sl x newcap = Some (ars', sl') →
  s_len sl2 = 0 ∨
    (s_ptr sl2 < length ars ∧
     (s_ptr sl2 = s_ptr sl → s_len sl < s_cap sl → s_len sl2 ≤ s_len sl)) →
  read_slice ars' sl2 = read_slice ars sl2.
Proof.
  intros H [Hz|[Hin Hle]]; unfold read_slice; [by rewrite Hz|].
  apply append_inv in H as [Hl [(arr & Hlt & Ha & -> & Hp & Hc)|(Hge & Hlt & -> & Hp & Hc)]].
  - destruct (decide (s_ptr sl = s_ptr sl2)) as [Heq|Hne].
    + rewrite <- Heq. rewrite list_lookup_insert_eq by (by eapply lookup_lt_Some).
      rewrite Ha. simpl. apply take_insert_ge. auto.
    + by rewrite list_lookup_insert_ne.
  - by rewrite lookup_app_l.
Qed.

Lemma append_length ars sl x newcap ars' sl' :
  append ars sl x newcap = Some (ars', sl') → length ars ≤ length ars'.
Proof.
  intros H.
  apply append_inv in H as [Hl [(arr & Hlt & Ha & -> & Hp & Hc)|(Hge & Hlt & -> & Hp & Hc)]].
  - by rewrite length_insert.
  - rewrite length_app. lia.
Qed.

(** ** What a transition does to the memory *)

Lemma cell_slice_set_collector st st0 pc c :
  cell_slice st (set_cell_collector st0 pc c) = cell_slice st c.
Proof. by destruct st0. Qed.

Lemma cell_slice_set_slice st st0 sl c :
  cell_slice st (set_cell_slice st0 sl c) = if decide (st = st0) then sl else cell_slice st c.
Proof. by destruct st, st0. Qed.

(* Either the arrays are untouched and every job object keeps its headers
   (new job objects have nil headers), or one collector appended a line. *)
Lemma exec_memory TrimSpace e w w' :
  exec TrimSpace e w = Some w' →
  (arrs w' = arrs w ∧
   ∀ a c', heap w' !! a = Some c' →
     (∃ c, heap w !! a = Some c ∧ ∀ st, cell_slice st c' = cell_slice st c) ∨
     (heap w !! a = None ∧ ∀ st, cell_slice st c' = nil_slice)) ∨
  (∃ a0 st0 c0 c0' line newcap sl',
     heap w !! a0 = Some c0 ∧
     append (arrs w) (cell_slice st0 c0) line newcap = Some (arrs w', sl') ∧
     heap w' = <[a0 := c0']> (heap w) ∧
     (∀ st, cell_slice st c0' = if decide (st = st0) then sl' else cell_slice st c0) ∧
     e = StepCollector a0 st0 (ICap newcap) ∧
     ∃ s r, cell_collector st0 c0 = C_append s r ∧ line = TrimSpace s).
Proof.
  intros H. exec_cases H; simpl.
  all: try (left; split; [done|]; intros a' c' Hl; by eauto 6).
  all: try (left; split; [done|]; intros a' c' Hl; heap_lookup Hl;
            first [ by eauto 6
                  | right; split; [by apply lookup_ge_None_2|by intros []]
                  | left; eexists; split; [done|]; intros st';
                    by rewrite ?cell_slice_set_collector
                  | left; eexists; split; [done|]; intros [];
                    unfold record_exit; by repeat case_match ]).
  right. do 7 eexists. split; [done|]. split; [done|]. split; [done|].
  split; [|by eauto].
  intros st'. by rewrite cell_slice_set_collector, cell_slice_set_slice.
Qed.

(* A handler that has returned a snapshot took it in this transition, off
   a job object, or had returned it before. *)
Lemma exec_returned TrimSpace e w w' h call jc err :
  exec TrimSpace e w = Some w' →
  handlers w' !! h = Some (call, Returned (Some jc) err) →
  handlers w !! h = Some (call, Returned (Some jc) err) ∨
  (∃ a c, heap w !! a = Some c ∧ jc = CopyStatus c ∧ arrs w' = arrs w ∧ heap w' = heap w).
Proof.
  intros H Hl. exec_cases H; simpl in Hl; try (by left).
  { apply lookup_snoc_Some in Hl as [[_ Hl]|[_ Hl]]; [by left|].
    destruct call0; discriminate. }
  all: apply list_lookup_insert_Some in Hl as [(<- & [= <- <-] & Hlt)|[Hne Hl]];
    try (by left); try discriminate.
  all: right; eauto 10.
Qed.

(* A handler that has returned stays as it is. *)
Lemma exec_returned_stays TrimSpace e w w' h call jc err :
  exec TrimSpace e w = Some w' →
  handlers w !! h = Some (call, Returned jc err) →
  handlers w' !! h = Some (call, Returned jc err).
Proof.
  intros H Hl. exec_cases H; simpl; try done.
  { by apply lookup_app_l_Some. }
  all: rewrite list_lookup_insert_ne; [done|intros ->; congruence].
Qed.

Lemma slice_ok_nil ars : slice_ok ars nil_slice.
Proof. split; simpl; lia. Qed.

Lemma exec_slices TrimSpace e w w' :
  exec TrimSpace e w = Some w' → Inv w →
  ∀ a c st, heap w' !! a = Some c → slice_ok (arrs w') (cell_slice st c).
Proof.
  intros H HI a c st Hl. pose proof (inv_slices _ HI) as Hsl.
  destruct (exec_memory _ _ _ _ H)
    as [[-> Hcells]|(a0 & st0 & c0 & c0' & line & newcap & sl' & Hc0 & Happ & Hheap & Hsls & _)].
  - destruct (Hcells _ _ Hl) as [(c1 & Hc1 & ->)|[_ ->]]; [by eapply Hsl|apply slice_ok_nil].
  - rewrite Hheap in Hl. apply list_lookup_insert_Some in Hl as [(<- & <- & Hlt)|[Hne Hl]].
    + rewrite Hsls. case_decide.
      * eapply append_slice_ok; [|done]. by eapply Hsl.
      * eapply append_frame_ok; [done|]. by eapply Hsl.
    + eapply append_frame_ok; [done|]. by eapply Hsl.
Qed.

Lemma slice_ok_ptr ars sl : slice_ok ars sl → 0 < s_cap sl → s_ptr sl < length ars.
Proof. intros [_ Harr] Hpos. destruct (Harr Hpos) as (arr & Ha & _). by eapply lookup_lt_Some. Qed.

Lemma exec_owner TrimSpace e w w' :
  exec TrimSpace e w = Some w' → Inv w →
  ∀ a1 a2 c1 c2 st1 st2,
    heap w' !! a1 = Some c1 → heap w' !! a2 = Some c2 →
    0 < s_cap (cell_slice st1 c1) → 0 < s_cap (cell_slice st2 c2) →
    s_ptr (cell_slice st1 c1) = s_ptr (cell_slice st2 c2) → a1 = a2 ∧ st1 = st2.
Proof.
  intros H HI. pose proof (inv_slices _ HI) as Hsl. pose proof (inv_owner _ HI) as Hown.
  destruct (exec_memory _ _ _ _ H)
    as [[_ Hcells]|(a0 & st0 & c0 & c0' & line & newcap & sl' & Hc0 & Happ & Hheap & Hsls & _)].
  - intros a1 a2 c1 c2 st1 st2 Hl1 Hl2.
    destruct (Hcells _ _ Hl1) as [(d1 & Hd1 & ->)|[_ ->]]; [|simpl; lia].
    destruct (Hcells _ _ Hl2) as [(d2 & Hd2 & ->)|[_ ->]]; [|simpl; lia].
    by eapply Hown.
  - assert (Hnew : ∀ a c st, heap w' !! a = Some c → 0 < s_cap (cell_slice st c) →
              (a = a0 ∧ st = st0 ∧ cell_slice st c = sl') ∨
              (¬ (a = a0 ∧ st = st0) ∧ ∃ d, heap w !! a = Some d ∧ cell_slice st c = cell_slice st d)).
    { intros a c st Hl Hpos. rewrite Hheap in Hl.
      apply list_lookup_insert_Some in Hl as [(<- & <- & Hlt)|[Hne Hl]].
      - rewrite Hsls. case_decide; [left; by eauto|right].
        split; [by intros [_ ?]|]. eauto.
      - right. split; [intros [? _]; congruence|]. eauto. }
    pose proof (Hsl _ _ st0 Hc0) as Hok0.
    assert (Hclash : ∀ a d st, heap w !! a = Some d → 0 < s_cap (cell_slice st d) →
              s_ptr sl' = s_ptr (cell_slice st d) → a = a0 ∧ st = st0).
    { intros a d st Hd Hpos Hptr.
      apply append_inv in Happ
        as [Hl [(arr & Hlt & Ha & _ & Hp & Hc)|(Hge & Hlt & _ & Hp & Hc)]].
      - destruct (Hown _ _ _ _ st0 st Hc0 Hd) as [-> ->]; [lia|done|congruence|done].
      - pose proof (slice_ok_ptr _ _ (Hsl _ _ st Hd) Hpos). lia. }
    intros a1 a2 c1 c2 st1 st2 Hl1 Hl2 Hp1 Hp2 Hptr.
    destruct (Hnew _ _ _ Hl1 Hp1) as [(-> & -> & E1)|(N1 & d1 & Hd1 & E1)];
      destruct (Hnew _ _ _ Hl2 Hp2) as [(-> & -> & E2)|(N2 & d2 & Hd2 & E2)];
      rewrite E1, E2 in *; try done.
    + exfalso. apply N2. by eapply Hclash.
    + exfalso. apply N1. by eapply Hclash.
    + by eapply Hown.
Qed.

Lemma status_slice_CopyStatus st c : status_slice st (CopyStatus c) = cell_slice st c.
Proof. by destruct st. Qed.

Lemma exec_snapshots TrimSpace e w w' :
  exec TrimSpace e w = Some w' → Inv w →
  ∀ h call jc err st,
    handlers w' !! h = Some (call, Returned (Some jc) err) →
    snapshot_ok w' (status_slice st jc).
Proof.
  intros H HI h call jc err st Hl.
  pose proof (inv_slices _ HI) as Hsl. pose proof (inv_owner _ HI) as Hown.
  destruct (exec_returned _ _ _ _ _ _ _ _ H Hl) as [Hold|(a & c & Hc & -> & Harrs & Hheap)].
  - (* an older snapshot *)
    destruct (inv_snapshots _ HI _ _ _ _ st Hold) as [Hz|[Hin Hle]]; [by left|right].
    destruct (exec_memory _ _ _ _ H)
      as [[-> Hcells]|(a0 & st0 & c0 & c0' & line & newcap & sl' & Hc0 & Happ & Hheap & Hsls & _)].
    + split; [done|]. intros a c st' Hc Hpos Hptr.
      destruct (Hcells _ _ Hc) as [(d & Hd & E)|[_ E]]; rewrite E in *; [|simpl in Hpos; lia].
      by eapply Hle.
    + split; [pose proof (append_length _ _ _ _ _ _ Happ); lia|].
      intros a c st' Hc Hpos Hptr. rewrite Hheap in Hc.
      assert (Hother : ∀ d, heap w !! a = Some d → cell_slice st' c = cell_slice st' d →
                s_len (status_slice st jc) ≤ s_len (cell_slice st' c)).
      { intros d Hd E. rewrite E in *. by eapply Hle. }
      apply list_lookup_insert_Some in Hc as [(<- & <- & Hlt)|[Hne Hc]]; [|by eauto].
      rewrite Hsls in *. case_decide as Hst; [subst st'|by eauto].
      apply append_inv in Happ
        as [Hl' [(arr & Hlt' & Ha & _ & Hp & Hcap)|(Hge & Hlt' & _ & Hp & Hcap)]].
      * rewrite Hl'. etrans; [eapply (Hle _ _ st0 Hc0); [lia|congruence]|lia].
      * lia.
  - (* the snapshot is taken now *)
    rewrite status_slice_CopyStatus.
    destruct (decide (s_len (cell_slice st c) = 0)) as [Hz|Hnz]; [by left|right].
    pose proof (Hsl _ _ st Hc) as Hok. rewrite Harrs, Hheap.
    split; [apply slice_ok_ptr; [done|destruct Hok; lia]|].
    intros a' c' st' Hc' Hpos Hptr.
    destruct (Hown _ _ _ _ st' st Hc' Hc) as [-> ->]; [done|destruct Hok; lia|done|].
    by simplify_eq.
Qed.

(** The invariant holds initially and every transition keeps it. *)
Lemma Inv_NewServer commands now : Inv (NewServer commands now).
Proof. split; simpl; intros; by simplify_eq. Qed.

Lemma Inv_exec TrimSpace e w w' : exec TrimSpace e w = Some w' → Inv w → Inv w'.
Proof.
  intros H HI. split.
  - by eapply exec_cells.
  - intros h call pc Hl. split; [by eapply exec_handler_ok|by eapply exec_serves].
  - by eapply exec_registry.
  - by eapply exec_slices.
  - by eapply exec_owner.
  - by eapply exec_snapshots.
Qed.

Lemma Inv_run TrimSpace tr w w' : run TrimSpace tr w = Some w' → Inv w → Inv w'.
Proof.
  revert w. induction tr as [|e tr IH]; intros w; simpl.
  - by intros [= <-].
  - destruct (exec TrimSpace e w) as [w1|] eqn:He; [|done].
    intros Hr HI. eapply IH; [done|]. by eapply Inv_exec.
Qed.

Lemma Inv_reachable TrimSpace w : reachable TrimSpace w → Inv w.
Proof. intros (commands & now & tr & Hr). eapply Inv_run; [done|apply Inv_NewServer]. Qed.

(** ** The lifecycle of a job *)

Lemma cell_ok_status c :
  cell_ok c →
  Status (cell_job c) = STATUS_NOT_STARTED ∨ Status (cell_job c) = STATUS_RUNNING ∨
  Status (cell_job c) = STATUS_COMPLETED.
Proof.
  unfold cell_ok, pc_status, not_started. intros Hpc.
  repeat case_match; destruct_and?; auto.
Qed.

Lemma cell_job_set_collector st pc c : cell_job (set_cell_collector st pc c) = cell_job c.
Proof. by destruct st. Qed.

Lemma Status_set_slice st sl c :
  Status (cell_job (set_cell_slice st sl c)) = Status (cell_job c).
Proof. by destruct st. Qed.

Ltac status_facts :=
  unfold forward, early_return, cell_ok, pc_status, not_started,
    fail_before_start, record_exit,
    STATUS_NOT_STARTED, STATUS_RUNNING, STATUS_COMPLETED in *;
  simpl in *.

Lemma exec_status TrimSpace e w w' a c :
  Inv w → exec TrimSpace e w = Some w' → heap w !! a = Some c →
  ∃ c', heap w' !! a = Some c' ∧
        forward (Status (cell_job c)) (Status (cell_job c')) ∧
        (Status (cell_job c) = STATUS_NOT_STARTED →
         Status (cell_job c') = STATUS_COMPLETED → early_return (cell_run c')).
Proof.
  intros HI H Hc. pose proof (inv_cells _ HI) as Hcells.
  assert (Hsame : forward (Status (cell_job c)) (Status (cell_job c)) ∧
                  (Status (cell_job c) = STATUS_NOT_STARTED →
                   Status (cell_job c) = STATUS_COMPLETED → early_return (cell_run c))).
  { split; [by left|]. unfold STATUS_NOT_STARTED, STATUS_COMPLETED. lia. }
  exec_cases H; simpl.
  all: try (exists c; split; [done|exact Hsame]).
  all: try (exists c; split; [by apply lookup_app_l_Some|exact Hsame]).
  all: match goal with
       | |- context [<[?a0 := _]> _] =>
           destruct (decide (a0 = a)) as [->|Hne];
           [|exists c; split; [by rewrite list_lookup_insert_ne|exact Hsame]]
       end.
  all: simplify_eq; eexists;
       (split; [apply list_lookup_insert_eq; by eapply lookup_lt_Some|]).
  all: rewrite ?cell_run_set_collector, ?cell_run_set_slice.
  all: try old_cell Hcells; clear Hcells HI Hsame.
  all: rewrite ?cell_job_set_collector, ?Status_set_slice.
  all: status_facts; repeat case_match; simpl in *; destruct_and?.
  all: split; [lia|intros; first [lia|auto]].
Qed.

Lemma run_status TrimSpace tr w w' a c :
  Inv w → run TrimSpace tr w = Some w' → heap w !! a = Some c →
  ∃ c', heap w' !! a = Some c' ∧
        (Status (cell_job c) ≤ Status (cell_job c'))%Z.
Proof.
  revert w c. induction tr as [|e tr IH]; intros w c HI; simpl.
  - intros [= <-] Hc. exists c. split; [done|lia].
  - destruct (exec TrimSpace e w) as [w1|] eqn:He; [|done]. intros Hr Hc.
    destruct (exec_status _ _ _ _ _ _ HI He Hc) as (c1 & Hc1 & Hf & _).
    destruct (IH _ _ (Inv_exec _ _ _ _ He HI) Hr Hc1) as (c' & Hc' & Hle).
    exists c'. split; [done|]. status_facts. lia.
Qed.

(** C1. Along every run from a reachable state, a job object stays in the
    heap and its state is one of NotStarted, Running, Completed and never
    decreases; once Completed it stays Completed.  In a single transition
    the state stays, or moves NotStarted to Running, Running to Completed,
    or NotStarted to Completed, the last only when runJob leaves through
    one of its returns before the process is started. *)
Theorem status_only_moves_forward TrimSpace w tr w' a c :
  reachable TrimSpace w → run TrimSpace tr w = Some w' → heap w !! a = Some c →
  ∃ c', heap w' !! a = Some c' ∧
    (STATUS_NOT_STARTED ≤ Status (cell_job c) ≤ Status (cell_job c'))%Z ∧
    (Status (cell_job c') ≤ STATUS_COMPLETED)%Z ∧
    (Status (cell_job c) = STATUS_COMPLETED → Status (cell_job c') = STATUS_COMPLETED) ∧
    (∀ e, tr = [e] →
       forward (Status (cell_job c)) (Status (cell_job c')) ∧
       (Status (cell_job c) = STATUS_NOT_STARTED →
        Status (cell_job c') = STATUS_COMPLETED → early_return (cell_run c'))).
Proof.
  intros HI%Inv_reachable Hr Hc.
  destruct (run_status _ _ _ _ _ _ HI Hr Hc) as (c' & Hc' & Hle).
  exists c'. split; [done|].
  pose proof (cell_ok_status _ (inv_cells _ HI _ _ Hc)) as Hs.
  pose proof (cell_ok_status _ (inv_cells _ (Inv_run _ _ _ _ Hr HI) _ _ Hc')) as Hs'.
  repeat split.
  - status_facts; lia.
  - done.
  - status_facts; lia.
  - status_facts; lia.
  - subst tr. simpl in Hr. destruct (exec TrimSpace e w) as [w1|] eqn:He; [|done].
    simplify_eq. destruct (exec_status _ _ _ _ _ _ HI He Hc) as (c1 & Hc1 & Hf & _).
    by simplify_eq.
  - subst tr. simpl in Hr. destruct (exec TrimSpace e w) as [w1|] eqn:He; [|done].
    simplify_eq. destruct (exec_status _ _ _ _ _ _ HI He Hc) as (c1 & Hc1 & _ & Hf).
    by simplify_eq.
Qed.

(* Once runJob has returned, its program point stays. *)
Lemma exec_runner_returned TrimSpace e w w' a c site :
  Inv w → exec TrimSpace e w = Some w' → heap w !! a = Some c →
  cell_run c = R_returned site →
  ∃ c', heap w' !! a = Some c' ∧ cell_run c' = R_returned site.
Proof.
  intros HI H Hc Hret. pose proof (inv_handlers _ HI) as Hhand.
  exec_cases H; simpl.
  all: try (exists c; split; [done|exact Hret]).
  all: try (exists c; split; [by apply lookup_app_l_Some|exact Hret]).
  all: match goal with
       | |- context [<[?a0 := _]> _] =>
           destruct (decide (a0 = a)) as [->|Hne];
           [|exists c; split; [by rewrite list_lookup_insert_ne|exact Hret]]
       end.
  all: simplify_eq; try congruence.
  all: try (unspawned Hhand; congruence).
  all: eexists; (split; [apply list_lookup_insert_eq; by eapply lookup_lt_Some|]).
  all: by rewrite ?cell_run_set_collector, ?cell_run_set_slice.
Qed.

Lemma run_runner_returned TrimSpace tr w w' a c site :
  Inv w → run TrimSpace tr w = Some w' → heap w !! a = Some c →
  cell_run c = R_returned site →
  ∃ c', heap w' !! a = Some c' ∧ cell_run c' = R_returned site.
Proof.
  revert w c. induction tr as [|e tr IH]; intros w c HI; simpl.
  - intros [= <-] Hc Hret. by exists c.
  - destruct (exec TrimSpace e w) as [w1|] eqn:He; [|done]. intros Hr Hc Hret.
    destruct (exec_runner_returned _ _ _ _ _ _ _ HI He Hc Hret) as (c1 & Hc1 & Hret1).
    by eapply (IH w1 c1); [eapply Inv_exec| | |].
Qed.

Lemma returned_completed_ok c :
  cell_ok c → cell_run c = R_returned (RetDone WaitNil) → completed_ok (cell_job c).
Proof.
  unfold cell_ok. intros Hpc Hret. rewrite Hret in Hpc. simpl in Hpc.
  destruct Hpc as (Hs & Hp & He). destruct (He eq_refl). by repeat split.
Qed.

(* The wall clock: a transition that reads it leaves its reading in
   [clock]; while no reading is below the one before it, start and finish
   times are in order. *)
Lemma exec_reading TrimSpace e w w' :
  exec TrimSpace e w = Some w' → clock w' = default (clock w) (reading e).
Proof. intros H. by exec_cases H. Qed.

Lemma exec_timed TrimSpace e w w' :
  exec TrimSpace e w = Some w' → (∀ t, reading e = Some t → (clock w ≤ t)%Z) →
  timed w → timed w'.
Proof.
  intros H Ht Htimed.
  exec_cases H; simpl in Ht; try specialize (Ht _ eq_refl); simpl; intros a' c' Hl;
    try (by eapply Htimed);
    heap_lookup Hl;
    try match goal with
        | Hc : heap _ !! _ = Some ?c |- _ => destruct (Htimed _ _ Hc) as [Hstart Hfin]
        end.
  all: rewrite ?cell_run_set_collector, ?cell_run_set_slice,
         ?cell_job_set_collector; simpl.
  all: try (split; [first [done|lia]|
                    intros ? ?; first [congruence|simpl; lia|by eapply Hfin]]).
  all: try (destruct (Htimed _ _ Hl) as [Hstart' Hfin']; split; [lia|done]).
  - unfold record_exit. repeat case_match; destruct (cell_job j); simpl in *;
      (split; [lia|intros; lia]).
  - destruct st; simpl; by split.
Qed.

Lemma run_timed TrimSpace tr w w' :
  run TrimSpace tr w = Some w' → steady (clock w) tr = true → timed w → timed w'.
Proof.
  revert w. induction tr as [|e tr IH]; intros w; simpl.
  - by intros [= <-].
  - destruct (exec TrimSpace e w) as [w1|] eqn:He; [|done]. intros Hr Hs Ht.
    pose proof (exec_reading _ _ _ _ He) as Hclock.
    destruct (reading e) as [t|] eqn:Hread; simpl in Hclock.
    + apply andb_prop in Hs as [Hle%Z.leb_le Hs].
      apply (IH w1); [done|by rewrite Hclock|].
      eapply exec_timed; [done| |done]. rewrite Hread. by intros ? [= <-].
    + apply (IH w1); [done|by rewrite Hclock|].
      eapply exec_timed; [done| |done]. by rewrite Hread.
Qed.

Lemma timed_NewServer commands now : timed (NewServer commands now).
Proof. by intros a c Hc. Qed.

(** C4 (amended).  In every reachable state, a job whose runner has
    returned after cmd.Wait() gave a nil error (the process exited with
    status 0) has state Completed, ExitCode 0, an empty error message and
    PID > 0, and keeps all that in every later state; its FinishTime is
    not below its StartTime when the clock was steady along the run that
    led there, that is, when no reading of time.Now().Unix() was below
    the one before it.  The runner does get there: when it waits for the
    process, and after the process has exited with status 0, its next
    transitions are enabled, and runJob stores whatever the clock says as
    FinishTime. *)
Theorem exit_zero_final_status TrimSpace w a c :
  reachable TrimSpace w → heap w !! a = Some c →
  (cell_run c = R_returned (RetDone WaitNil) →
   completed_ok (cell_job c) ∧
   (∀ commands now tr,
      run TrimSpace tr (NewServer commands now) = Some w → steady now tr = true →
      (StartTime (cell_job c) ≤ FinishTime (cell_job c))%Z) ∧
   ∀ tr w', run TrimSpace tr w = Some w' →
     ∃ c', heap w' !! a = Some c' ∧ cell_run c' = R_returned (RetDone WaitNil) ∧
           completed_ok (cell_job c')) ∧
  (crashed w = false → cell_run c = R_wait →
   ∃ w1 c1, exec TrimSpace (StepRunner a (IWait WaitNil)) w = Some w1 ∧
            heap w1 !! a = Some c1 ∧ cell_run c1 = R_finalize WaitNil) ∧
  (crashed w = false → cell_run c = R_finalize WaitNil → ∀ t,
   ∃ w1 c1, exec TrimSpace (StepRunner a (ITime t)) w = Some w1 ∧
            heap w1 !! a = Some c1 ∧ cell_run c1 = R_returned (RetDone WaitNil) ∧
            FinishTime (cell_job c1) = t ∧
            StartTime (cell_job c1) = StartTime (cell_job c)).
Proof.
  intros HI%Inv_reachable Hc. split; [|split].
  - intros Hret. split; [by eapply returned_completed_ok, Hret; eapply inv_cells|].
    split.
    + intros commands now tr Hr Hs.
      eapply (run_timed _ _ _ _ Hr Hs (timed_NewServer commands now)); done.
    + intros tr w' Hr.
      destruct (run_runner_returned _ _ _ _ _ _ _ HI Hr Hc Hret) as (c' & Hc' & Hret').
      exists c'. split; [done|]. split; [done|].
      eapply returned_completed_ok; [|done]. eapply inv_cells; [|done]. by eapply Inv_run.
  - intros Hcr Hpc. unfold exec, runJob_step. rewrite Hcr, Hc, Hpc.
    do 2 eexists. split; [done|]. simpl.
    split; [apply list_lookup_insert_eq; by eapply lookup_lt_Some|done].
  - intros Hcr Hpc t. unfold exec, runJob_step. rewrite Hcr, Hc, Hpc.
    do 2 eexists. split; [done|]. simpl.
    split; [apply list_lookup_insert_eq; by eapply lookup_lt_Some|]. simpl.
    by destruct c as [[] ? ? ?].
Qed.

Lemma exit_zero_final_status_witness :
  ∃ w c, run TrimSpaceASCII Examples.echo_run Examples.server0 = Some w ∧
         heap w !! 0 = Some c ∧ cell_run c = R_returned (RetDone WaitNil) ∧
         steady 100 Examples.echo_run = true ∧
         completed_ok (cell_job c) ∧
         (StartTime (cell_job c) ≤ FinishTime (cell_job c))%Z.
Proof.
  assert (∃ w c, run TrimSpaceASCII Examples.echo_run Examples.server0 = Some w ∧
                 heap w !! 0 = Some c ∧ cell_run c = R_returned (RetDone WaitNil))
    as (w & c & Hr & Hc & Hret).
  { do 2 eexists. repeat (split; [vm_compute; reflexivity|]). vm_compute; reflexivity. }
  assert (Hs : steady 100 Examples.echo_run = true) by (vm_compute; reflexivity).
  exists w, c. split; [exact Hr|]. split; [exact Hc|]. split; [exact Hret|].
  split; [exact Hs|].
  assert (Hreach : reachable TrimSpaceASCII w).
  { exists Examples.commands, 100%Z, Examples.echo_run. exact Hr. }
  destruct (proj1 (exit_zero_final_status TrimSpaceASCII w 0 c Hreach Hc) Hret)
    as (Hok & Htime & _).
  split; [exact Hok|]. exact (Htime Examples.commands 100%Z Examples.echo_run Hr Hs).
Defined.

(* Nothing orders the two readings of the clock: on a host whose clock is
   set back while the process runs, the job of the example is resolved,
   its process exits with status 0, and its FinishTime 99 is below its
   StartTime 100. *)
Lemma finish_before_start :
  ¬ (∀ w a c,
       reachable TrimSpaceASCII w → heap w !! a = Some c →
       is_Some (runnableCommands w !! CommandName (cell_job c)) →
       cell_run c = R_returned (RetDone WaitNil) →
       (StartTime (cell_job c) ≤ FinishTime (cell_job c))%Z).
Proof.
  intros Hall.
  assert (∃ w c,
    run TrimSpaceASCII Examples.clock_set_back_run Examples.server0 = Some w ∧
    heap w !! 0 = Some c ∧
    runnableCommands w !! CommandName (cell_job c) = Some "/bin/echo" ∧
    cell_run c = R_returned (RetDone WaitNil) ∧
    StartTime (cell_job c) = 100%Z ∧ FinishTime (cell_job c) = 99%Z)
    as (w & c & Hr & Hc & Hcmd & Hret & Hstart & Hfinish).
  { do 2 eexists. repeat (split; [vm_compute; reflexivity|]). vm_compute; reflexivity. }
  assert (Hreach : reachable TrimSpaceASCII w).
  { exists Examples.commands, 100%Z, Examples.clock_set_back_run. exact Hr. }
  pose proof (Hall w 0 c Hreach Hc (mk_is_Some _ _ Hcmd) Hret) as Hle.
  rewrite Hstart, Hfinish in Hle. lia.
Qed.

Lemma status_only_moves_forward_witness :
  ∃ w w' c c',
    run TrimSpaceASCII (Examples.submit "echo-test") Examples.server0 = Some w ∧
    run TrimSpaceASCII (Examples.reply ++ Examples.start_process ++ Examples.finish) w = Some w' ∧
    heap w !! 0 = Some c ∧ heap w' !! 0 = Some c' ∧
    Status (cell_job c) = STATUS_NOT_STARTED ∧ Status (cell_job c') = STATUS_COMPLETED ∧
    (Status (cell_job c) ≤ Status (cell_job c'))%Z.
Proof.
  assert (∃ w w' c c',
    run TrimSpaceASCII (Examples.submit "echo-test") Examples.server0 = Some w ∧
    run TrimSpaceASCII (Examples.reply ++ Examples.start_process ++ Examples.finish) w = Some w' ∧
    heap w !! 0 = Some c ∧ heap w' !! 0 = Some c' ∧
    Status (cell_job c) = STATUS_NOT_STARTED ∧ Status (cell_job c') = STATUS_COMPLETED)
    as (w & w' & c & c' & Hr & Hr' & Hc & Hc' & Hs & Hs').
  { do 4 eexists. repeat (split; [vm_compute; reflexivity|]). vm_compute; reflexivity. }
  exists w, w', c, c'. repeat (split; [assumption|]).
  assert (Hreach : reachable TrimSpaceASCII w).
  { exists Examples.commands, 100%Z, (Examples.submit "echo-test"). exact Hr. }
  destruct (status_only_moves_forward TrimSpaceASCII w _ w' 0 c Hreach Hr' Hc)
    as (c1 & Hc1 & [_ Hle] & _).
  rewrite Hc' in Hc1. injection Hc1 as <-. exact Hle.
Defined.

(** ** Snapshots *)

Lemma CopyStatus_eq rj : CopyStatus rj = cell_job rj.
Proof. by destruct rj as [[] ? ? ?]. Qed.

Lemma exec_snapshot_lines TrimSpace e w w' h call jc err st :
  Inv w → exec TrimSpace e w = Some w' →
  handlers w !! h = Some (call, Returned (Some jc) err) →
  lines w' st jc = lines w st jc.
Proof.
  intros HI H Hh. unfold lines.
  destruct (exec_memory _ _ _ _ H)
    as [[-> _]|(a0 & st0 & c0 & c0' & line & newcap & sl' & Hc0 & Happ & _)]; [done|].
  eapply append_frame_read; [done|].
  destruct (inv_snapshots _ HI _ _ _ _ st Hh) as [Hz|[Hin Hle]]; [by left|right].
  split; [done|]. intros Hptr Hlt. eapply (Hle _ _ st0 Hc0); [lia|done].
Qed.

(** C6 (amended).  CopyStatus returns a shallow copy: it copies every
    field of the job's status, the headers of the stdout and stderr slices
    among them, so the copy shares the backing arrays of the job's
    sequences.  What a JobStatus that a handler has returned shows is
    nevertheless never altered afterwards: along every run the handler
    still holds the same value, and the stdout and stderr sequences this
    value shows stay what they were, whatever the runner and the
    collectors do to the job in the meantime, because appends only write
    beyond the length the copy shows. *)
Theorem snapshot_never_altered TrimSpace w tr w' h call jc err :
  reachable TrimSpace w → run TrimSpace tr w = Some w' →
  handlers w !! h = Some (call, Returned (Some jc) err) →
  handlers w' !! h = Some (call, Returned (Some jc) err) ∧
  (∀ st, lines w' st jc = lines w st jc) ∧
  (∀ rj, CopyStatus rj = cell_job rj).
Proof.
  intros HI%Inv_reachable Hr Hh. split; [|split; [|apply CopyStatus_eq]].
  - revert w HI Hr Hh. induction tr as [|e tr IH]; intros w HI Hr Hh; simpl in Hr.
    + by simplify_eq.
    + destruct (exec TrimSpace e w) as [w1|] eqn:He; [|done].
      eapply (IH w1); [by eapply Inv_exec|done|by eapply exec_returned_stays].
  - intros st. revert w HI Hr Hh. induction tr as [|e tr IH]; intros w HI Hr Hh; simpl in Hr.
    + by simplify_eq.
    + destruct (exec TrimSpace e w) as [w1|] eqn:He; [|done].
      rewrite (IH w1); [by eapply exec_snapshot_lines|by eapply Inv_exec|done|
                        by eapply exec_returned_stays].
Qed.

Lemma snapshot_never_altered_witness :
  ∃ w w' jc c',
    run TrimSpaceASCII (Examples.before_snapshot ++ Examples.snapshot) Examples.server0 = Some w ∧
    run TrimSpaceASCII Examples.after_snapshot w = Some w' ∧
    handlers w !! 1 = Some (CallGetJobStatus 0, Returned (Some jc) None) ∧
    heap w' !! 0 = Some c' ∧
    s_ptr (Stdout jc) = s_ptr (Stdout (cell_job c')) ∧
    lines w StdoutStream jc = ["a"] ∧
    lines w' StdoutStream (cell_job c') = ["a"; "b"] ∧
    handlers w' !! 1 = Some (CallGetJobStatus 0, Returned (Some jc) None) ∧
    lines w' StdoutStream jc = ["a"].
Proof.
  assert (∃ w w' jc c',
    run TrimSpaceASCII (Examples.before_snapshot ++ Examples.snapshot) Examples.server0 = Some w ∧
    run TrimSpaceASCII Examples.after_snapshot w = Some w' ∧
    handlers w !! 1 = Some (CallGetJobStatus 0, Returned (Some jc) None) ∧
    heap w' !! 0 = Some c' ∧
    s_ptr (Stdout jc) = s_ptr (Stdout (cell_job c')) ∧
    lines w StdoutStream jc = ["a"] ∧
    lines w' StdoutStream (cell_job c') = ["a"; "b"])
    as (w & w' & jc & c' & Hr & Hr' & Hh & Hc' & Hp & Hl & Hl').
  { do 4 eexists. repeat (split; [vm_compute; reflexivity|]). vm_compute; reflexivity. }
  exists w, w', jc, c'. repeat (split; [assumption|]).
  assert (Hreach : reachable TrimSpaceASCII w).
  { exists Examples.commands, 100%Z, (Examples.before_snapshot ++ Examples.snapshot).
    exact Hr. }
  destruct (snapshot_never_altered TrimSpaceASCII w _ w' 1 _ jc None Hreach Hr' Hh)
    as (Hh' & Hsame & _).
  split; [exact Hh'|]. rewrite Hsame. exact Hl.
Defined.

(* The copy is not deep.  The snapshot of the example is taken when the
   job's stdout array, of capacity 4, holds one line; the collector then
   appends the second line in place, into the array the snapshot's Stdout
   header points to: memory the returned JobStatus refers to is written
   after the snapshot has returned. *)
Lemma snapshot_shares_arrays :
  ¬ (∀ w tr w' h call jc err st,
       reachable TrimSpaceASCII w → run TrimSpaceASCII tr w = Some w' →
       handlers w !! h = Some (call, Returned (Some jc) err) →
       arrs w' !! s_ptr (status_slice st jc) = arrs w !! s_ptr (status_slice st jc)).
Proof.
  intros Hall.
  assert (∃ w w' jc c' p,
    run TrimSpaceASCII (Examples.before_snapshot ++ Examples.snapshot) Examples.server0 = Some w ∧
    run TrimSpaceASCII Examples.after_snapshot w = Some w' ∧
    handlers w !! 1 = Some (CallGetJobStatus 0, Returned (Some jc) None) ∧
    heap w' !! 0 = Some c' ∧
    s_ptr (status_slice StdoutStream jc) = p ∧
    s_ptr (status_slice StdoutStream (cell_job c')) = p ∧
    arrs w !! p = Some ["a"; ""; ""; ""] ∧
    arrs w' !! p = Some ["a"; "b"; ""; ""])
    as (w & w' & jc & c' & p & Hr & Hr' & Hh & Hc' & Hp & Hp' & Ha & Ha').
  { do 5 eexists. repeat (split; [vm_compute; reflexivity|]). vm_compute; reflexivity. }
  assert (Hreach : reachable TrimSpaceASCII w).
  { exists Examples.commands, 100%Z, (Examples.before_snapshot ++ Examples.snapshot).
    exact Hr. }
  pose proof (Hall w _ w' 1 _ jc None StdoutStream Hreach Hr' Hh) as Heq.
  rewrite Hp, Ha, Ha' in Heq. discriminate Heq.
Qed.

(** ** The captured sequences *)

(* An append leaves the sequences of all other headers of job objects as
   they are. *)
Lemma append_other_lines w a0 st0 c0 line newcap ars' sl' a c st :
  Inv w → heap w !! a0 = Some c0 →
  append (arrs w) (cell_slice st0 c0) line newcap = Some (ars', sl') →
  heap w !! a = Some c → ¬ (a = a0 ∧ st = st0) →
  read_slice ars' (cell_slice st c) = read_slice (arrs w) (cell_slice st c).
Proof.
  intros HI Hc0 Happ Hc Hne.
  eapply append_frame_read; [done|].
  pose proof (inv_slices _ HI _ _ st Hc) as Hok.
  destruct (decide (s_len (cell_slice st c) = 0)) as [Hz|Hnz]; [by left|right].
  split; [apply slice_ok_ptr; [done|destruct Hok; lia]|].
  intros Hptr Hlt. exfalso. apply Hne.
  eapply (inv_owner _ HI _ _ _ _ st st0 Hc Hc0); [destruct Hok; lia|lia|done].
Qed.

Lemma exec_lines TrimSpace e w w' a c st :
  Inv w → exec TrimSpace e w = Some w' → heap w !! a = Some c →
  ∃ c', heap w' !! a = Some c' ∧
    (lines w' st (cell_job c') = lines w st (cell_job c) ∨
     ∃ s r newcap,
       e = StepCollector a st (ICap newcap) ∧ cell_collector st c = C_append s r ∧
       lines w' st (cell_job c') = lines w st (cell_job c) ++ [TrimSpace s]).
Proof.
  intros HI H Hc.
  destruct (exec_status _ _ _ _ _ _ HI H Hc) as (c' & Hc' & _).
  exists c'. split; [done|]. unfold lines. fold (cell_slice st c) (cell_slice st c').
  destruct (exec_memory _ _ _ _ H)
    as [[-> Hcells]|(a0 & st0 & c0 & c0' & line & newcap & sl' & Hc0 & Happ & Hheap & Hsls
                     & -> & s & r & Hpc & ->)].
  - left. destruct (Hcells _ _ Hc') as [(d & Hd & ->)|[Hnone _]]; by simplify_eq.
  - rewrite Hheap in Hc'.
    apply list_lookup_insert_Some in Hc' as [(<- & <- & Hlt)|[Hne Hc']]; simplify_eq.
    + rewrite Hsls. case_decide as Hst.
      * subst st0. right. exists s, r, newcap. split; [done|]. split; [done|].
        eapply append_read; [|done]. by eapply inv_slices.
      * left. eapply append_other_lines; [done..|]. by intros [_ ?].
    + left. eapply append_other_lines; [done..|]. intros [? _]. congruence.
Qed.

(** C7 (amended).  The runner does not wait for the collectors:
    in every transition from a reachable state, whatever the state of the
    job (Completed included), each sequence of a job either stays as it is
    or gets exactly one line appended at its end, the trimmed line that
    the collector of that stream of that job had read; entries already in
    the sequence are never changed or removed. *)
Theorem lines_append_only TrimSpace w e w' a c st :
  reachable TrimSpace w → exec TrimSpace e w = Some w' → heap w !! a = Some c →
  ∃ c', heap w' !! a = Some c' ∧
    lines w st (cell_job c) `prefix_of` lines w' st (cell_job c') ∧
    (lines w' st (cell_job c') = lines w st (cell_job c) ∨
     ∃ s r newcap,
       e = StepCollector a st (ICap newcap) ∧ cell_collector st c = C_append s r ∧
       lines w' st (cell_job c') = lines w st (cell_job c) ++ [TrimSpace s]).
Proof.
  intros HI%Inv_reachable H Hc.
  destruct (exec_lines _ _ _ _ _ _ st HI H Hc) as (c' & Hc' & Hl).
  exists c'. split; [done|]. split; [|done].
  destruct Hl as [->|(s & r & newcap & _ & _ & ->)]; [done|]. by apply prefix_app_r.
Qed.

Lemma lines_append_only_witness :
  ∃ w w' c c',
    run TrimSpaceASCII Examples.late_collector_run Examples.server0 = Some w ∧
    exec TrimSpaceASCII (StepCollector 0 StdoutStream (ICap 1)) w = Some w' ∧
    heap w !! 0 = Some c ∧ heap w' !! 0 = Some c' ∧
    lines w StdoutStream (cell_job c) `prefix_of` lines w' StdoutStream (cell_job c').
Proof.
  assert (∃ w w' c c',
    run TrimSpaceASCII Examples.late_collector_run Examples.server0 = Some w ∧
    exec TrimSpaceASCII (StepCollector 0 StdoutStream (ICap 1)) w = Some w' ∧
    heap w !! 0 = Some c ∧ heap w' !! 0 = Some c')
    as (w & w' & c & c' & Hr & He & Hc & Hc').
  { do 4 eexists. repeat (split; [vm_compute; reflexivity|]). vm_compute; reflexivity. }
  exists w, w', c, c'. repeat (split; [assumption|]).
  assert (Hreach : reachable TrimSpaceASCII w).
  { exists Examples.commands, 100%Z, Examples.late_collector_run. exact Hr. }
  destruct (lines_append_only TrimSpaceASCII w _ w' 0 c StdoutStream Hreach He Hc)
    as (c1 & Hc1 & Hpre & _).
  rewrite Hc' in Hc1. injection Hc1 as <-. exact Hpre.
Defined.

(* Nothing keeps a sequence fixed once the job is Completed: here the
   collector had read the line hello when the runner finalized Completed,
   and appends it afterwards. *)
Lemma append_after_completed :
  ¬ (∀ w e w' a c c' st,
       reachable TrimSpaceASCII w → exec TrimSpaceASCII e w = Some w' →
       heap w !! a = Some c → heap w' !! a = Some c' →
       Status (cell_job c) = STATUS_COMPLETED →
       lines w' st (cell_job c') = lines w st (cell_job c)).
Proof.
  intros Hall.
  assert (∃ w w' c c',
    run TrimSpaceASCII Examples.late_collector_run Examples.server0 = Some w ∧
    exec TrimSpaceASCII (StepCollector 0 StdoutStream (ICap 1)) w = Some w' ∧
    heap w !! 0 = Some c ∧ heap w' !! 0 = Some c' ∧
    Status (cell_job c) = STATUS_COMPLETED ∧
    lines w StdoutStream (cell_job c) = [] ∧
    lines w' StdoutStream (cell_job c') = ["hello"])
    as (w & w' & c & c' & Hr & He & Hc & Hc' & Hs & Hl & Hl').
  { do 4 eexists. repeat (split; [vm_compute; reflexivity|]). vm_compute; reflexivity. }
  assert (Hreach : reachable TrimSpaceASCII w).
  { exists Examples.commands, 100%Z, Examples.late_collector_run. exact Hr. }
  pose proof (Hall w _ w' 0 c c' StdoutStream Hreach He Hc Hc' Hs) as Heq.
  rewrite Hl, Hl' in Heq. discriminate Heq.
Qed.

(** ** StopJob *)

(** C8. StopJob on an id that is not registered returns the error "Job
    not found" for that id; StopJob on a registered job whose state is not
    Running returns the error "Job not running"; and no transition of a
    StopJob handler, whatever it returns, changes the registry, a job
    object or a backing array: the world after it differs only in the
    handler's own program point. *)
Theorem StopJob_errors TrimSpace w h id pc :
  reachable TrimSpace w → crashed w = false →
  handlers w !! h = Some (CallStopJob id, pc) →
  (pc = ST_lookup id → allJobs w !! id = None →
   exec TrimSpace (StepHandler h INone) w
   = Some (set_handler h (CallStopJob id) (Returned None (Some (ErrJobNotFound id))) w)) ∧
  (∀ job, pc = ST_lookup id → allJobs w !! id = Some job →
   exec TrimSpace (StepHandler h INone) w
   = Some (set_handler h (CallStopJob id) (ST_check id job) w)) ∧
  (∀ job c, pc = ST_check id job → heap w !! job = Some c →
   Status (cell_job c) ≠ STATUS_RUNNING →
   exec TrimSpace (StepHandler h INone) w
   = Some (set_handler h (CallStopJob id) (Returned None (Some (ErrJobNotRunning id))) w)) ∧
  (∀ i w', exec TrimSpace (StepHandler h i) w = Some w' →
   ∃ pc', w' = set_handler h (CallStopJob id) pc' w ∧
          allJobs w' = allJobs w ∧ heap w' = heap w ∧ arrs w' = arrs w).
Proof.
  intros HI%Inv_reachable Hcr Hh.
  destruct (inv_handlers _ HI _ _ _ Hh) as [_ Hserves]. repeat split.
  - intros -> Hid. unfold exec. rewrite Hcr, Hh. simpl. by rewrite Hid.
  - intros job -> Hid. unfold exec. rewrite Hcr, Hh. simpl. by rewrite Hid.
  - intros job c -> Hc Hs. unfold exec. rewrite Hcr, Hh. simpl. rewrite Hc.
    by rewrite bool_decide_eq_true_2.
  - intros i w' H. exec_handler H; simplify_eq; try done; by eexists.
Qed.

Lemma StopJob_errors_witness :
  (∃ w, run TrimSpaceASCII (Examples.echo_run ++ [Call (CallStopJob 7)]) Examples.server0
        = Some w ∧
        exec TrimSpaceASCII (StepHandler 1 INone) w
        = Some (set_handler 1 (CallStopJob 7) (Returned None (Some (ErrJobNotFound 7))) w)) ∧
  (∃ w, run TrimSpaceASCII (Examples.echo_run ++ [Call (CallStopJob 0); StepHandler 1 INone])
          Examples.server0 = Some w ∧
        exec TrimSpaceASCII (StepHandler 1 INone) w
        = Some (set_handler 1 (CallStopJob 0) (Returned None (Some (ErrJobNotRunning 0))) w)).
Proof.
  split.
  - assert (∃ w, run TrimSpaceASCII (Examples.echo_run ++ [Call (CallStopJob 7)])
                   Examples.server0 = Some w ∧
                 crashed w = false ∧
                 handlers w !! 1 = Some (CallStopJob 7, ST_lookup 7) ∧
                 allJobs w !! 7%Z = None)
      as (w & Hr & Hcr & Hh & Hid).
    { eexists. repeat (split; [vm_compute; reflexivity|]). vm_compute; reflexivity. }
    exists w. split; [exact Hr|].
    assert (Hreach : reachable TrimSpaceASCII w) by (do 3 eexists; exact Hr).
    exact (proj1 (StopJob_errors TrimSpaceASCII w 1 7 _ Hreach Hcr Hh) eq_refl Hid).
  - assert (∃ w c, run TrimSpaceASCII
                     (Examples.echo_run ++ [Call (CallStopJob 0); StepHandler 1 INone])
                     Examples.server0 = Some w ∧
                   crashed w = false ∧
                   handlers w !! 1 = Some (CallStopJob 0, ST_check 0 0) ∧
                   heap w !! 0 = Some c ∧ Status (cell_job c) = STATUS_COMPLETED)
      as (w & c & Hr & Hcr & Hh & Hc & Hs).
    { do 2 eexists. repeat (split; [vm_compute; reflexivity|]). vm_compute; reflexivity. }
    exists w. split; [exact Hr|].
    assert (Hreach : reachable TrimSpaceASCII w) by (do 3 eexists; exact Hr).
    refine (proj1 (proj2 (proj2 (StopJob_errors TrimSpaceASCII w 1 0 _ Hreach Hcr Hh)))
              0 c eq_refl Hc _).
    rewrite Hs. discriminate.
Defined.

(** ** StartJob *)

(** C10 (amended).  For every JobRequest, StartJob returns a JobStatus and
    a nil error and nothing else, whether or not the command name is in
    the whitelist: a StartJob handler that has no transition left holds a
    status and no error; until then it always has a next transition (it is
    never stuck), and each of its transitions leaves one less to make, five
    in all.  Failure to resolve the command is recorded by the runner on
    the job's status, as Completed with an error message and exit code −1;
    the JobStatus that StartJob returns shows it already when the runner
    ran before the snapshot was taken. *)
Theorem StartJob_never_fails TrimSpace w h details pc :
  reachable TrimSpace w → handlers w !! h = Some (CallStartJob details, pc) →
  (StartJob_steps_left pc = 0 → ∃ jc, pc = Returned (Some jc) None) ∧
  (crashed w = false → StartJob_steps_left pc ≠ 0 →
   ∃ i w', exec TrimSpace (StepHandler h i) w = Some w') ∧
  (∀ i w', exec TrimSpace (StepHandler h i) w = Some w' →
   ∃ pc', handlers w' !! h = Some (CallStartJob details, pc') ∧
          S (StartJob_steps_left pc') = StartJob_steps_left pc) ∧
  (∀ a c, crashed w = false → heap w !! a = Some c → cell_run c = R_lookup →
   runnableCommands w !! CommandName (cell_job c) = None →
   ∃ w' c', exec TrimSpace (StepRunner a INone) w = Some w' ∧
            heap w' !! a = Some c' ∧
            Status (cell_job c') = STATUS_COMPLETED ∧
            Error (cell_job c') = "Unable to find job for " +:+ CommandName (cell_job c) ∧
            ExitCode (cell_job c') = (-1)%Z).
Proof.
  intros HI%Inv_reachable Hh.
  destruct (inv_handlers _ HI _ _ _ Hh) as [Hok Hserves].
  split; [|split; [|split]].
  - intros Hleft. destruct pc; simpl in *; try done.
    destruct jc, err; try done. by eexists.
  - intros Hcr Hleft. unfold exec. rewrite Hcr, Hh.
    destruct pc; simpl in *; try done.
    + exists INone. by eexists.
    + exists (ITime (clock w)). by eexists.
    + destruct Hok as [(c & Hc & _) _]. exists INone. rewrite Hc. by eexists.
    + destruct Hok as [(c & Hc & _) _]. exists INone. rewrite Hc. by eexists.
    + apply lookup_lt_is_Some_2 in Hok as [c Hc]. exists INone. rewrite Hc. by eexists.
  - intros i w' H. exec_handler H; simplify_eq; try done; simpl.
    all: eexists; (split; [apply list_lookup_insert_eq; by eapply lookup_lt_Some|done]).
  - intros a c Hcr Hc Hpc Hcmd. unfold exec, runJob_step. rewrite Hcr, Hc, Hpc, Hcmd.
    do 2 eexists. split; [done|]. simpl.
    split; [apply list_lookup_insert_eq; by eapply lookup_lt_Some|].
    pose proof (inv_cells _ HI _ _ Hc) as Hstat; unfold cell_ok in Hstat. rewrite Hpc in Hstat.
    by destruct Hstat as (_ & _ & ? & _).
Qed.

Lemma StartJob_never_fails_witness :
  ∃ w jc,
    run TrimSpaceASCII Examples.eager_runner_run Examples.server0 = Some w ∧
    handlers w !! 0 = Some (CallStartJob (Examples.request "nope"), Returned (Some jc) None).
Proof.
  assert (∃ w pc,
    run TrimSpaceASCII Examples.eager_runner_run Examples.server0 = Some w ∧
    handlers w !! 0 = Some (CallStartJob (Examples.request "nope"), pc) ∧
    StartJob_steps_left pc = 0)
    as (w & pc & Hr & Hh & Hleft).
  { do 2 eexists. repeat (split; [vm_compute; reflexivity|]). vm_compute; reflexivity. }
  assert (Hreach : reachable TrimSpaceASCII w) by (do 3 eexists; exact Hr).
  destruct (proj1 (StartJob_never_fails TrimSpaceASCII w 0 _ pc Hreach Hh) Hleft)
    as [jc ->].
  exists w, jc. split; [exact Hr|exact Hh].
Defined.

(* The status StartJob returns can show the failure: the runner looked the
   command up before StartJob took its snapshot. *)
Lemma StartJob_reply_shows_failure :
  ¬ (∀ w h details jc,
       reachable TrimSpaceASCII w →
       handlers w !! h = Some (CallStartJob details, Returned (Some jc) None) →
       runnableCommands w !! rq_CommandName details = None →
       Status jc = STATUS_NOT_STARTED ∧ Error jc = EmptyString).
Proof.
  intros Hall.
  assert (∃ w jc,
    run TrimSpaceASCII Examples.eager_runner_run Examples.server0 = Some w ∧
    handlers w !! 0 = Some (CallStartJob (Examples.request "nope"), Returned (Some jc) None) ∧
    runnableCommands w !! "nope" = None ∧
    Status jc = STATUS_COMPLETED ∧ Error jc = "Unable to find job for nope")
    as (w & jc & Hr & Hh & Hcmd & Hs & He).
  { do 2 eexists. repeat (split; [vm_compute; reflexivity|]). vm_compute; reflexivity. }
  assert (Hreach : reachable TrimSpaceASCII w) by (do 3 eexists; exact Hr).
  destruct (Hall w 0 _ jc Hreach Hh Hcmd) as [Hs' _].
  rewrite Hs in Hs'. discriminate Hs'.
Qed.

(** ** The id allocator *)







(** ** Failures before the process starts *)

(* The failures runJob looks at (command not in the whitelist, no stdout
   pipe, no stderr pipe) take the job from NotStarted straight to
   Completed, with the error message set and the exit code left at −1. *)
Lemma early_failures_skip_running TrimSpace w a c i w' :
  reachable TrimSpace w → heap w !! a = Some c →
  exec TrimSpace (StepRunner a i) w = Some w' →
  (cell_run c = R_lookup ∧ runnableCommands w !! CommandName (cell_job c) = None) ∨
  (∃ cmd msg, (cell_run c = R_stdout_pipe cmd ∨ cell_run c = R_stderr_pipe cmd) ∧
              i = IPipe (PipeErr msg)) →
  ∃ c', heap w' !! a = Some c' ∧ early_return (cell_run c') ∧
        Status (cell_job c) = STATUS_NOT_STARTED ∧
        Status (cell_job c') = STATUS_COMPLETED ∧
        ExitCode (cell_job c') = (-1)%Z ∧
        (cell_run c = R_lookup →
         Error (cell_job c') = "Unable to find job for " +:+ CommandName (cell_job c)) ∧
        (∀ msg, i = IPipe (PipeErr msg) → Error (cell_job c') = msg).
Proof.
  intros HI%Inv_reachable Hc H Hcase.
  pose proof (inv_cells _ HI _ _ Hc) as Hstat; unfold cell_ok in Hstat.
  exec_runner H; simplify_eq; rewrite Hpc in Hstat; simpl in Hstat.
  all: destruct Hcase as [[? ?]|(cmd & msg' & [?|?] & ?)]; simplify_eq.
  all: eexists; (split; [apply list_lookup_insert_eq; by eapply lookup_lt_Some|]).
  all: unfold early_return, not_started in *; simpl; destruct_and?.
  all: repeat split; auto; try congruence.
Qed.

(* When cmd.Start() fails, runJob still sets the state to Running and then
   panics: from any reachable state with the runner about to start the
   process, these two transitions are enabled and end in a crashed world
   where the job is Running. *)
Lemma start_failure_panics TrimSpace w a c cmd :
  reachable TrimSpace w → crashed w = false → heap w !! a = Some c →
  cell_run c = R_start cmd →
  ∃ w1 w2 c2,
    exec TrimSpace (StepRunner a (IStart None)) w = Some w1 ∧
    exec TrimSpace (StepRunner a INone) w1 = Some w2 ∧
    heap w2 !! a = Some c2 ∧ cell_run c2 = R_panicked ∧
    Status (cell_job c2) = STATUS_RUNNING ∧ Error (cell_job c2) = EmptyString ∧
    crashed w2 = true.
Proof.
  intros HI%Inv_reachable Hcr Hc Hpc.
  pose proof (inv_cells _ HI _ _ Hc) as Hstat; unfold cell_ok in Hstat. rewrite Hpc in Hstat.
  destruct Hstat as (_ & Herr & _).
  pose proof (lookup_lt_Some _ _ _ Hc) as Hlt.
  do 3 eexists. split.
  { unfold exec, runJob_step. rewrite Hcr, Hc, Hpc. simpl. reflexivity. }
  split.
  { unfold exec, runJob_step. simpl. rewrite Hcr.
    rewrite list_lookup_insert_eq by done. simpl. reflexivity. }
  simpl. rewrite list_insert_insert_eq.
  split; [by apply list_lookup_insert_eq|done].
Qed.

(** C3. The failure of cmd.Start() is not looked at.  For the whitelisted
    command broken, whose executable cannot be started, both pipes are
    created, cmd.Start() fails and leaves cmd.Process nil; runJob then sets
    the state to Running and panics on cmd.Process.Pid: the job has gone
    through Running, it never becomes Completed, its error message is
    empty, and the process of the agent is gone. *)
Theorem start_failure_reaches_running :
  ∃ w c, run TrimSpaceASCII Examples.broken_run Examples.server0 = Some w ∧
         heap w !! 0 = Some c ∧
         runnableCommands w !! CommandName (cell_job c) = Some "/no/such/file" ∧
         Status (cell_job c) = STATUS_RUNNING ∧
         Error (cell_job c) = EmptyString ∧
         cell_run c = R_panicked ∧
         crashed w = true ∧
         ∀ e, exec TrimSpaceASCII e w = None.
Proof.
  do 2 eexists. repeat (split; [vm_compute; reflexivity|]).
  intros e. reflexivity.
Qed.

(** ** GetJobs *)

(** C5. GetJobs returns before its loop: with the job 0, started at time
    100, registered, the jobs started after time 0 are the job 0, and
    GetJobs sends no id at all (and returns a nil error). *)
Theorem GetJobs_sends_nothing :
  (∀ w since, GetJobs w since = ([], None)) ∧
  ∃ w c, run TrimSpaceASCII (Examples.submit "echo-test") Examples.server0 = Some w ∧
         allJobs w !! 0%Z = Some 0 ∧ heap w !! 0 = Some c ∧
         StartTime (cell_job c) = 100%Z ∧
         jobs_started_after w 0 = [0%Z] ∧
         GetJobs w 0 = ([], None) ∧
         (w' ← run TrimSpaceASCII [Call (CallGetJobs 0); StepHandler 1 INone] w;
          handlers w' !! 1) = Some (CallGetJobs 0, ReturnedStream [] None).
Proof.
  split; [done|].
  do 2 eexists. repeat (split; [vm_compute; reflexivity|]). vm_compute; reflexivity.
Qed.

(** * Further properties *)

(** ** What StartJob sets once *)

Lemma same_identity_refl j : same_identity j j.
Proof. by repeat split. Qed.

Lemma same_identity_trans j1 j2 j3 :
  same_identity j1 j2 → same_identity j2 j3 → same_identity j1 j3.
Proof. unfold same_identity. intros (?&?&?&?&?) (?&?&?&?&?). repeat split; congruence. Qed.

Lemma exec_identity TrimSpace e w w' a c :
  exec TrimSpace e w = Some w' → heap w !! a = Some c →
  ∃ c', heap w' !! a = Some c' ∧ same_identity (cell_job c) (cell_job c').
Proof.
  intros H Hc.
  exec_cases H; simpl.
  all: try (exists c; split; [done|apply same_identity_refl]).
  all: try (exists c; split; [by apply lookup_app_l_Some|apply same_identity_refl]).
  all: match goal with
       | |- context [<[?a0 := _]> _] =>
           destruct (decide (a0 = a)) as [->|Hne];
           [|exists c; split; [by rewrite list_lookup_insert_ne|apply same_identity_refl]]
       end.
  all: simplify_eq; eexists;
       (split; [apply list_lookup_insert_eq; by eapply lookup_lt_Some|]).
  all: unfold same_identity, record_exit;
       try match goal with st : stream |- _ => destruct st end;
       simpl; repeat case_match; by repeat split.
Qed.

(** X2. The fields StartJob fills in once (JobID, JobName, CommandName,
    StartTime, Args) never change: along every run a job object stays in
    the heap with the same values for them, whatever its runner, its
    collectors and the handlers do. *)
Theorem identity_never_changes TrimSpace tr w w' a c :
  run TrimSpace tr w = Some w' → heap w !! a = Some c →
  ∃ c', heap w' !! a = Some c' ∧ same_identity (cell_job c) (cell_job c').
Proof.
  revert w c. induction tr as [|e tr IH]; intros w c; simpl.
  - intros [= <-] Hc. exists c. split; [done|apply same_identity_refl].
  - destruct (exec TrimSpace e w) as [w1|] eqn:He; [|done]. intros Hr Hc.
    destruct (exec_identity _ _ _ _ _ _ He Hc) as (c1 & Hc1 & Hid1).
    destruct (IH _ _ Hr Hc1) as (c' & Hc' & Hid').
    exists c'. split; [done|]. by eapply same_identity_trans.
Qed.

(** ** Further invariants of the reachable states *)

Lemma cell_collector_set_collector st st0 pc c :
  cell_collector st (set_cell_collector st0 pc c)
  = if decide (st = st0) then pc else cell_collector st c.
Proof. by destruct st, st0. Qed.

Lemma exec_cells_more TrimSpace e w w' :
  exec TrimSpace e w = Some w' → Inv w →
  (∀ a c, heap w !! a = Some c → cell_more w c) →
  ∀ a c, heap w' !! a = Some c → cell_more w' c.
Proof.
  intros H HI Hmore.
  pose proof (inv_cells _ HI) as Hcells. pose proof (inv_handlers _ HI) as Hhand.
  assert (Hkeep : ∀ a c, heap w !! a = Some c →
            pc_fields (cell_run c) c ∧
            (∀ st, cell_collector st c = C_none → cell_slice st c = nil_slice) ∧
            cell_run c ≠ R_panicked).
  { intros a c Hc. destruct (Hmore _ _ Hc) as (? & ? & Hp).
    repeat split; [done..|]. apply Hp. unfold exec in H. by destruct (crashed w). }
  clear Hmore.
  exec_cases H; bool_hyps; intros a' c' Hl; simpl in Hl.
  all: try (destruct (Hkeep _ _ Hl) as (? & ? & ?); by repeat split).
  all: heap_lookup Hl.
  all: try (destruct (Hkeep _ _ Hl) as (? & ? & ?); by repeat split).
  all: try match goal with
       | Hc : heap _ !! _ = Some ?c |- _ =>
           let Hf := fresh "Hf" in
           let Hn := fresh "Hn" in
           let Hp := fresh "Hp" in
           destruct (Hkeep _ _ Hc) as (Hf & Hn & Hp);
           try old_cell Hcells
       end.
  all: try unspawned Hhand.
  all: clear Hkeep Hcells Hhand HI.
  all: try (pose proof (Hn StdoutStream) as Hn1; pose proof (Hn StderrStream) as Hn2;
            clear Hn).
  all: unfold cell_more, pc_fields, exit_recorded, cell_ok, pc_status, not_started,
         fail_before_start, record_exit, cell_collector, cell_slice, status_slice,
         set_cell_collector, set_cell_slice in *.
  all: repeat match goal with st : stream |- _ => destruct st end.
  all: simpl in *.
  all: try match goal with Hpc : cell_run _ = _ |- _ => rewrite Hpc in * end.
  all: try match goal with Hpc : cell_out _ = _ |- _ => rewrite Hpc in * end.
  all: try match goal with Hpc : cell_err _ = _ |- _ => rewrite Hpc in * end.
  all: (split; [|split; [intros []; simpl; auto; try done|try done]]).
  all: repeat case_match; simpl in *; destruct_and?; simplify_eq;
       repeat split; try done; try lia; try congruence.
Qed.

Lemma exec_registry_grows TrimSpace e w w' id :
  exec TrimSpace e w = Some w' → is_Some (allJobs w !! id) → is_Some (allJobs w' !! id).
Proof.
  intros H Hid. exec_cases H; simpl; try done.
  rewrite lookup_insert_is_Some. destruct (decide (JobID (cell_job j) = id)); auto.
Qed.

Lemma exec_registry_ids TrimSpace e w w' :
  exec TrimSpace e w = Some w' →
  (∀ id a, allJobs w !! id = Some a → ∃ c, heap w !! a = Some c ∧ JobID (cell_job c) = id) →
  ∀ id a, allJobs w' !! id = Some a → ∃ c, heap w' !! a = Some c ∧ JobID (cell_job c) = id.
Proof.
  intros H Hreg id a Hl.
  assert (Hold : ∀ a, (∃ c, heap w !! a = Some c ∧ JobID (cell_job c) = id) →
                      ∃ c, heap w' !! a = Some c ∧ JobID (cell_job c) = id).
  { intros a0 (c & Hc & Hid).
    destruct (exec_identity _ _ _ _ _ _ H Hc) as (c' & Hc' & Hid' & _).
    exists c'. split; [done|congruence]. }
  apply Hold. clear Hold.
  exec_cases H; simpl in Hl; try (by eapply Hreg).
  apply lookup_insert_Some in Hl as [[<- <-]|[_ Hl]]; [by eauto|by eapply Hreg].
Qed.

Lemma cell_consistent w c :
  cell_ok c → cell_more w c → crashed w = false → consistent (cell_job c).
Proof.
  intros Hstat (Hf & _ & Hp) Hcr. specialize (Hp Hcr).
  unfold cell_ok, consistent, pc_status, pc_fields, not_started, exit_recorded,
    STATUS_NOT_STARTED, STATUS_RUNNING, STATUS_COMPLETED in *.
  destruct (cell_run c) as [| | | | | | | |[]|]; try done; destruct_and?.
  all: repeat split; intros; try lia; auto.
  all: try (left; repeat split; done).
Qed.

Lemma echoes_identity d j j' : same_identity j j' → echoes d j → echoes d j'.
Proof. unfold same_identity, echoes. intros (?&?&?&?&?) (?&?&?). repeat split; congruence. Qed.

(* What a handler knows survives the moves of the others. *)
Lemma handler_more_frame TrimSpace e w w' call pc :
  exec TrimSpace e w = Some w' → handler_more w call pc → handler_more w' call pc.
Proof.
  intros H Hm.
  assert (Hreg : ∀ id, is_Some (allJobs w !! id) → is_Some (allJobs w' !! id)).
  { intros id. by eapply exec_registry_grows. }
  destruct pc as [| | a | a | a | id | a | | | | | [jc|] err | ]; simpl in *; try done.
  - destruct Hm as (c & Hc & He).
    destruct (exec_identity _ _ _ _ _ _ H Hc) as (c' & Hc' & Hid).
    exists c'. split; [done|]. intros d Hd. eapply echoes_identity; eauto.
  - destruct Hm as (c & Hc & Hin & He).
    destruct (exec_identity _ _ _ _ _ _ H Hc) as (c' & Hc' & Hid).
    exists c'. split; [done|]. split.
    + destruct Hid as [-> _]. auto.
    + intros d Hd. eapply echoes_identity; eauto.
  - destruct Hm as (c & Hc & Hin & He).
    destruct (exec_identity _ _ _ _ _ _ H Hc) as (c' & Hc' & Hid).
    exists c'. split; [done|]. split.
    + destruct Hid as [-> _]. auto.
    + intros d Hd. eapply echoes_identity; eauto.
  - auto.
  - destruct Hm as (c & Hc & He).
    destruct (exec_identity _ _ _ _ _ _ H Hc) as (c' & Hc' & Hid).
    exists c'. split; [done|]. intros id Hcall. destruct Hid as [-> _]. auto.
  - auto.
  - auto.
  - destruct Hm as (Hcons & Herr & Hid & Hstart).
    split; [done|]. split; [done|]. split; [done|].
    intros d Hd. destruct (Hstart d Hd) as [He Hin]. auto.
  - destruct Hm as (id & Hid & Herr). exists id. split; [done|].
    destruct err as [[]|]; try done; destruct_and?; auto.
Qed.

Lemma exec_handlers_more TrimSpace e w w' :
  exec TrimSpace e w = Some w' → Inv w → Inv2 w →
  ∀ h call pc, handlers w' !! h = Some (call, pc) → handler_more w' call pc.
Proof.
  intros H HI HI2 h call pc Hl.
  assert (Hframe : ∀ call pc, handler_more w call pc → handler_more w' call pc).
  { intros ? ?. by eapply handler_more_frame. }
  pose proof (inv2_handlers _ HI2) as Hmore.
  pose proof (inv2_registry _ HI2) as Hreg.
  assert (Hcons : ∀ a c, heap w !! a = Some c → consistent (cell_job c)).
  { intros a c Hc. eapply cell_consistent; [by eapply inv_cells|by eapply inv2_cells|].
    unfold exec in H. by destruct (crashed w). }
  assert (Hserves : ∀ h call pc, handlers w !! h = Some (call, pc) → serves call pc).
  { intros ? ? ? Hh. by destruct (inv_handlers _ HI _ _ _ Hh). }
  destruct e as [call0|h0 i|a0 i|a0 st i].
  - exec_start H; injection H as <-. simpl in Hl.
    apply lookup_snoc_Some in Hl as [[_ Hl]|[_ [= <- <-]]].
    + eapply (handler_more_frame TrimSpace (Call call0) w); [|by eapply Hmore].
      unfold exec. by rewrite Hcrashed.
    + destruct call0; simpl; try done. by intros [? ?].
  - assert (He := H).
    exec_handler H; simpl in Hl.
    all: apply list_lookup_insert_Some in Hl as [(<- & [= <- <-] & Hlt)|[Hne Hl]];
      [|by eapply Hframe, Hmore].
    all: pose proof (Hmore _ _ _ Hlook) as Hm; pose proof (Hserves _ _ _ Hlook) as Hs.
    all: clear Hframe He.
    all: simpl in *.
    all: rewrite ?CopyStatus_eq.
    + done.
    + eexists. split; [by apply list_lookup_middle|].
      intros d ->. simpl in Hs. by subst.
    + destruct Hm as (c & Hc & He). simplify_eq. exists j. split; [done|].
      split; [|done]. apply lookup_insert_is_Some. by left.
    + destruct Hm as (c & Hc & Hin & He). simplify_eq. eexists.
      split; [apply list_lookup_insert_eq; by eapply lookup_lt_Some|]. by split.
    + destruct Hm as (c & Hc & Hin & He). simplify_eq.
      split; [by eapply Hcons|]. split; [done|]. split.
      * intros id Hid. by destruct call0.
      * intros d Hd. split; [by apply He|done].
    + destruct (Hreg _ _ H0) as (c & Hc & Hid). exists c. split; [done|].
      intros id0 Hcall. destruct call0; simpl in *; by simplify_eq.
    + destruct call0; simpl in *; try done; by eexists.
    + destruct Hm as (c & Hc & Hid). simplify_eq.
      split; [by eapply Hcons|]. split; [done|]. split; [done|].
      intros d ->. done.
    + by eexists.
    + destruct call0; simpl in *; try done; by eexists.
    + destruct call0; simpl in *; try done; subst; by eexists.
    + done.
    + destruct call0; simpl in *; try done; subst; by eexists.
    + destruct call0; simpl in *; try done; subst; by eexists.
    + done.
    + done.
  - apply Hframe. apply (Hmore h). exec_runner H; exact Hl.
  - apply Hframe. apply (Hmore h). exec_collector H; exact Hl.
Qed.

Lemma Inv2_NewServer commands now : Inv2 (NewServer commands now).
Proof. split; simpl; intros; by simplify_eq. Qed.

Lemma Inv2_exec TrimSpace e w w' :
  exec TrimSpace e w = Some w' → Inv w → Inv2 w → Inv2 w'.
Proof.
  intros H HI HI2. split.
  - eapply exec_cells_more; [done..|]. by apply inv2_cells.
  - eapply exec_registry_ids; [done|]. by apply inv2_registry.
  - by eapply exec_handlers_more.
Qed.

Lemma Inv2_run TrimSpace tr w w' :
  run TrimSpace tr w = Some w' → Inv w → Inv2 w → Inv2 w'.
Proof.
  revert w. induction tr as [|e tr IH]; intros w; simpl.
  - by intros [= <-].
  - destruct (exec TrimSpace e w) as [w1|] eqn:He; [|done].
    intros Hr HI HI2. eapply IH; [done|by eapply Inv_exec|by eapply Inv2_exec].
Qed.

Lemma Inv2_reachable TrimSpace w : reachable TrimSpace w → Inv2 w.
Proof.
  intros (commands & now & tr & Hr).
  eapply Inv2_run; [done|apply Inv_NewServer|apply Inv2_NewServer].
Qed.

(** ** The collectors in the running system *)

Lemma cell_collector_set_slice st st0 sl c :
  cell_collector st (set_cell_slice st0 sl c) = cell_collector st c.
Proof. by destruct st, st0. Qed.

(* How a transition moves the collector of a stream of a job: not at all,
   by a read, or by an append. *)
Lemma exec_collector_pc TrimSpace e w w' a c c' st :
  Inv2 w → exec TrimSpace e w = Some w' →
  heap w !! a = Some c → heap w' !! a = Some c' → cell_collector st c ≠ C_none →
  (cell_collector st c' = cell_collector st c ∧ ∀ i, e ≠ StepCollector a st i) ∨
  (e = StepCollector a st INone ∧
   ∃ r, cell_collector st c = C_read r ∧
        match split_newline r with
        | Some (s, r') => cell_collector st c' = C_append s r'
        | None => cell_collector st c' = C_done
        end) ∨
  (∃ n s r, e = StepCollector a st (ICap n) ∧
            cell_collector st c = C_append s r ∧ cell_collector st c' = C_read r).
Proof.
  intros HI2 H Hc Hc' Hspawned.
  destruct (inv2_cells _ HI2 _ _ Hc) as (Hf & _).
  exec_cases H; simpl in Hc'.
  all: try (left; split; [by simplify_eq|done]).
  all: try (left; split; [|done];
            rewrite lookup_app_l in Hc' by (by eapply lookup_lt_Some); by simplify_eq).
  all: match type of Hc' with
       | <[?a0 := _]> _ !! _ = _ =>
           destruct (decide (a0 = a)) as [->|Hne];
           [rewrite list_lookup_insert_eq in Hc' by (by eapply lookup_lt_Some)
           |rewrite list_lookup_insert_ne in Hc' by done;
            left; split; [by simplify_eq|intros ? [=]; done]]
       end.
  all: simplify_eq.
  all: try (left; split; [done|done]).
  - rewrite Hpc in Hf. destruct Hf as (_ & Ho & He). destruct st; simpl in *; done.
  - rewrite Hpc in Hf. destruct Hf as (_ & He). destruct st; simpl in *; [|done].
    left. split; [done|]. by intros ? [=].
  - destruct (decide (st = st0)) as [->|Hst].
    + right. left. split; [done|]. exists r. split; [done|].
      unfold ReadString in *. destruct (split_newline r) as [[]|]; simplify_eq.
      rewrite cell_collector_set_collector. by case_decide.
    + left. rewrite cell_collector_set_collector. case_decide; [done|].
      split; [done|]. intros ? [=]. done.
  - destruct (decide (st = st0)) as [->|Hst].
    + right. left. split; [done|]. exists r. split; [done|].
      unfold ReadString in *. destruct (split_newline r) as [[]|]; simplify_eq.
      rewrite cell_collector_set_collector. by case_decide.
    + left. rewrite cell_collector_set_collector. case_decide; [done|].
      split; [done|]. intros ? [=]. done.
  - destruct (decide (st = st0)) as [->|Hst].
    + right. right. do 3 eexists. split; [done|]. split; [done|].
      rewrite cell_collector_set_collector. by case_decide.
    + left. rewrite cell_collector_set_collector, cell_collector_set_slice.
      case_decide; [done|]. split; [done|]. intros ? [=]. done.
Qed.

Lemma exec_append_lines TrimSpace w w' a c c' st n s r :
  Inv w → exec TrimSpace (StepCollector a st (ICap n)) w = Some w' →
  heap w !! a = Some c → heap w' !! a = Some c' → cell_collector st c = C_append s r →
  lines w' st (cell_job c') = lines w st (cell_job c) ++ [TrimSpace s].
Proof.
  intros HI H Hc Hc' Hpc.
  unfold exec in H. destruct (crashed w); [done|]. rewrite Hc in H.
  unfold copyPipe_step, collector_step in H. rewrite Hpc in H.
  destruct (append (arrs w) (cell_slice st c) (TrimSpace s) n) as [[ars' sl']|] eqn:Happ;
    [|done].
  injection H as <-. simpl in Hc'.
  rewrite list_lookup_insert_eq in Hc' by (by eapply lookup_lt_Some). simplify_eq.
  unfold lines. simpl.
  change (status_slice st (cell_job ?x)) with (cell_slice st x).
  rewrite cell_slice_set_collector, cell_slice_set_slice. case_decide; [|done].
  eapply append_read; [|done]. by eapply inv_slices.
Qed.

Lemma exec_pending TrimSpace e w w' a c st :
  Inv w → Inv2 w → exec TrimSpace e w = Some w' →
  heap w !! a = Some c → cell_collector st c ≠ C_none →
  ∃ c', heap w' !! a = Some c' ∧ cell_collector st c' ≠ C_none ∧
        lines w' st (cell_job c') ++ pending TrimSpace (cell_collector st c')
        = lines w st (cell_job c) ++ pending TrimSpace (cell_collector st c).
Proof.
  intros HI HI2 H Hc Hspawned.
  destruct (exec_lines _ _ _ _ _ _ st HI H Hc) as (c' & Hc' & Hl).
  exists c'. split; [done|].
  destruct (exec_collector_pc _ _ _ _ _ _ _ st HI2 H Hc Hc' Hspawned)
    as [[Hsame Hother]|[[-> (r & Hr & Hnext)]|(n & s & r & -> & Hpc & Hnext)]].
  - rewrite Hsame. split; [done|].
    destruct Hl as [->|(s & r & n & -> & _)]; [done|]. by destruct (Hother (ICap n)).
  - destruct Hl as [Hl|(s & r' & n & [=] & _)]. rewrite Hl, Hr. simpl.
    unfold complete_lines. rewrite complete_lines_from_split.
    destruct (split_newline r) as [[s r']|]; rewrite Hnext; by simpl.
  - rewrite Hnext, Hpc. split; [done|].
    rewrite (exec_append_lines _ _ _ _ _ _ _ _ _ _ HI H Hc Hc' Hpc). simpl.
    by rewrite <- app_assoc.
Qed.

Lemma lines_nil_slice w st j : status_slice st j = nil_slice → lines w st j = [].
Proof. unfold lines. by intros ->. Qed.

Lemma run_pending TrimSpace tr w w' a c st :
  Inv w → Inv2 w → run TrimSpace tr w = Some w' →
  heap w !! a = Some c → cell_collector st c ≠ C_none →
  ∃ c', heap w' !! a = Some c' ∧
        lines w' st (cell_job c') ++ pending TrimSpace (cell_collector st c')
        = lines w st (cell_job c) ++ pending TrimSpace (cell_collector st c).
Proof.
  revert w c. induction tr as [|e tr IH]; intros w c HI HI2; simpl.
  - intros [= <-] Hc _. by exists c.
  - destruct (exec TrimSpace e w) as [w1|] eqn:He; [|done]. intros Hr Hc Hsp.
    destruct (exec_pending _ _ _ _ _ _ st HI HI2 He Hc Hsp) as (c1 & Hc1 & Hsp1 & Heq1).
    destruct (IH w1 c1) as (c' & Hc' & Heq'); [by eapply Inv_exec|by eapply Inv2_exec|done..|].
    exists c'. split; [done|]. by rewrite Heq'.
Qed.

(** X8. From the moment runJob has created the pipe of a stream, whose
    reader delivers [content], the job's sequence for that stream followed
    by the lines its collector has still to append is, in every later
    state, exactly the trimmed complete lines of [content]: the sequence
    is always a prefix of that list, and is that list once the collector
    has returned. *)
Theorem collector_delivers_stream TrimSpace w a c st content w1 tr w' :
  reachable TrimSpace w → heap w !! a = Some c → creates_pipe st (cell_run c) →
  exec TrimSpace (StepRunner a (IPipe (PipeOk content))) w = Some w1 →
  run TrimSpace tr w1 = Some w' →
  ∃ c', heap w' !! a = Some c' ∧
    lines w' st (cell_job c') ++ pending TrimSpace (cell_collector st c')
    = map TrimSpace (complete_lines content) ∧
    lines w' st (cell_job c') `prefix_of` map TrimSpace (complete_lines content) ∧
    (cell_collector st c' = C_done →
     lines w' st (cell_job c') = map TrimSpace (complete_lines content)).
Proof.
  intros Hreach Hc Hpipe He Hr.
  pose proof (Inv_reachable _ _ Hreach) as HI.
  pose proof (Inv2_reachable _ _ Hreach) as HI2.
  destruct (inv2_cells _ HI2 _ _ Hc) as (Hf & Hnil & _).
  assert (∃ c1, heap w1 !! a = Some c1 ∧ cell_collector st c1 = C_read content ∧
                lines w1 st (cell_job c1) = []) as (c1 & Hc1 & Hpc1 & Hl1).
  { pose proof (lookup_lt_Some _ _ _ Hc) as Hlt.
    unfold exec, runJob_step in He. destruct (crashed w); [done|]. rewrite Hc in He.
    destruct st; destruct Hpipe as [cmd Hpc]; rewrite Hpc in He, Hf;
      injection He as <-; simpl; eexists;
      (split; [by apply list_lookup_insert_eq|]); (split; [done|]);
      apply lines_nil_slice; simpl.
    - apply (Hnil StdoutStream). simpl. by destruct Hf as (_ & ? & _).
    - apply (Hnil StderrStream). simpl. by destruct Hf as (_ & ?). }
  destruct (run_pending _ _ _ _ _ _ st (Inv_exec _ _ _ _ He HI) (Inv2_exec _ _ _ _ He HI HI2)
              Hr Hc1) as (c' & Hc' & Heq).
  { by rewrite Hpc1. }
  rewrite Hl1, Hpc1 in Heq. simpl in Heq.
  exists c'. split; [done|]. split; [done|]. split.
  - rewrite <- Heq. by apply prefix_app_r.
  - intros Hdone. rewrite Hdone in Heq. simpl in Heq. by rewrite app_nil_r in Heq.
Qed.

Lemma collector_delivers_stream_witness :
  ∃ w w1 w' c c',
    run TrimSpaceASCII MoreExamples.found_run Examples.server0 = Some w ∧
    heap w !! 0 = Some c ∧
    exec TrimSpaceASCII (StepRunner 0 (IPipe (PipeOk Examples.two_lines))) w = Some w1 ∧
    run TrimSpaceASCII MoreExamples.collect_two w1 = Some w' ∧
    heap w' !! 0 = Some c' ∧ cell_out c' = C_done ∧
    lines w' StdoutStream (cell_job c') = map TrimSpaceASCII (complete_lines Examples.two_lines) ∧
    lines w' StdoutStream (cell_job c') = ["a"; "b"].
Proof.
  assert (∃ w w1 w' c c',
    run TrimSpaceASCII MoreExamples.found_run Examples.server0 = Some w ∧
    heap w !! 0 = Some c ∧
    exec TrimSpaceASCII (StepRunner 0 (IPipe (PipeOk Examples.two_lines))) w = Some w1 ∧
    run TrimSpaceASCII MoreExamples.collect_two w1 = Some w' ∧
    heap w' !! 0 = Some c' ∧ cell_out c' = C_done ∧
    cell_run c = R_stdout_pipe "/bin/echo" ∧
    lines w' StdoutStream (cell_job c') = ["a"; "b"])
    as (w & w1 & w' & c & c' & Hr & Hc & He & Hr' & Hc' & Hdone & Hpc & Hl).
  { do 5 eexists. repeat (split; [vm_compute; reflexivity|]). vm_compute; reflexivity. }
  exists w, w1, w', c, c'.
  split; [exact Hr|]. split; [exact Hc|]. split; [exact He|]. split; [exact Hr'|].
  split; [exact Hc'|]. split; [exact Hdone|]. split; [|exact Hl].
  assert (Hreach : reachable TrimSpaceASCII w) by (do 3 eexists; exact Hr).
  assert (Hpipe : creates_pipe StdoutStream (cell_run c)) by (eexists; exact Hpc).
  destruct (collector_delivers_stream TrimSpaceASCII w 0 c StdoutStream _ w1 _ w'
              Hreach Hc Hpipe He Hr') as (c1 & Hc1 & _ & _ & Hfinal).
  rewrite Hc' in Hc1. injection Hc1 as <-. exact (Hfinal Hdone).
Defined.

Lemma identity_never_changes_witness :
  ∃ w w' c c',
    run TrimSpaceASCII (MoreExamples.submitted_run "echo-test") Examples.server0 = Some w ∧
    run TrimSpaceASCII (Examples.start_process ++ Examples.finish) w = Some w' ∧
    heap w !! 0 = Some c ∧ heap w' !! 0 = Some c' ∧
    Status (cell_job c') = STATUS_COMPLETED ∧
    same_identity (cell_job c) (cell_job c').
Proof.
  assert (∃ w w' c c',
    run TrimSpaceASCII (MoreExamples.submitted_run "echo-test") Examples.server0 = Some w ∧
    run TrimSpaceASCII (Examples.start_process ++ Examples.finish) w = Some w' ∧
    heap w !! 0 = Some c ∧ heap w' !! 0 = Some c' ∧
    Status (cell_job c') = STATUS_COMPLETED)
    as (w & w' & c & c' & Hr & Hr' & Hc & Hc' & Hs).
  { do 4 eexists. repeat (split; [vm_compute; reflexivity|]). vm_compute; reflexivity. }
  exists w, w', c, c'.
  split; [exact Hr|]. split; [exact Hr'|]. split; [exact Hc|]. split; [exact Hc'|].
  split; [exact Hs|].
  destruct (identity_never_changes TrimSpaceASCII _ w w' 0 c Hr' Hc) as (c1 & Hc1 & Hid).
  rewrite Hc' in Hc1. injection Hc1 as <-. exact Hid.
Defined.

(** ** What runJob records *)

(** X3. In every reachable state, a job whose runner has returned after
    cmd.Wait() is Completed with PID > 0 and shows the result of the wait:
    exit code 0 and no error for a nil error; the exit status and the
    error's message for an exit error with a wait status; exit code −1 and
    the error's message for any other error.  A job whose runner has not
    returned that way still has exit code −1 and no finish time. *)
Theorem exit_is_recorded TrimSpace w a c :
  reachable TrimSpace w → heap w !! a = Some c →
  (∀ exitError, cell_run c = R_returned (RetDone exitError) →
     Status (cell_job c) = STATUS_COMPLETED ∧ (0 < PID (cell_job c))%Z ∧
     exit_recorded exitError (cell_job c)) ∧
  ((∀ exitError, cell_run c ≠ R_returned (RetDone exitError)) →
     ExitCode (cell_job c) = (-1)%Z ∧ FinishTime (cell_job c) = 0%Z).
Proof.
  intros Hreach Hc.
  pose proof (inv_cells _ (Inv_reachable _ _ Hreach) _ _ Hc) as Hstat; unfold cell_ok in Hstat.
  destruct (inv2_cells _ (Inv2_reachable _ _ Hreach) _ _ Hc) as (Hf & _).
  split.
  - intros e Hpc. rewrite Hpc in Hstat, Hf. simpl in *.
    destruct Hstat as (? & ? & _). by repeat split.
  - intros Hnot. unfold pc_status, pc_fields, not_started in *.
    destruct (cell_run c) as [| | | | | | | |[]|]; destruct_and?; try done.
    by destruct (Hnot exitError).
Qed.

Lemma exit_is_recorded_witness :
  ∃ w c, run TrimSpaceASCII MoreExamples.failing_run Examples.server0 = Some w ∧
         heap w !! 0 = Some c ∧
         Status (cell_job c) = STATUS_COMPLETED ∧
         ExitCode (cell_job c) = 3%Z ∧ Error (cell_job c) = "exit status 3".
Proof.
  assert (∃ w c, run TrimSpaceASCII MoreExamples.failing_run Examples.server0 = Some w ∧
                 heap w !! 0 = Some c ∧
                 cell_run c = R_returned (RetDone (WaitExitError (Some 3%Z) "exit status 3")))
    as (w & c & Hr & Hc & Hpc).
  { do 2 eexists. repeat (split; [vm_compute; reflexivity|]). vm_compute; reflexivity. }
  exists w, c. split; [exact Hr|]. split; [exact Hc|].
  assert (Hreach : reachable TrimSpaceASCII w) by (do 3 eexists; exact Hr).
  destruct (proj1 (exit_is_recorded TrimSpaceASCII w 0 c Hreach Hc) _ Hpc)
    as (Hs & _ & Hcode & Herr).
  split; [exact Hs|]. split; [exact Hcode|exact Herr].
Defined.

(** X7. The failures runJob looks at before the process is started (the
    command is not in the whitelist, cmd.StdoutPipe() or cmd.StderrPipe()
    returns an error) take the job in one transition from NotStarted to
    Completed through an early return, with exit code −1 and the error
    message set: "Unable to find job for " followed by the command name,
    or the message of the pipe error. *)
Theorem handled_failures_complete TrimSpace w a c i w' :
  reachable TrimSpace w → heap w !! a = Some c →
  exec TrimSpace (StepRunner a i) w = Some w' →
  (cell_run c = R_lookup ∧ runnableCommands w !! CommandName (cell_job c) = None) ∨
  (∃ cmd msg, (cell_run c = R_stdout_pipe cmd ∨ cell_run c = R_stderr_pipe cmd) ∧
              i = IPipe (PipeErr msg)) →
  ∃ c', heap w' !! a = Some c' ∧ early_return (cell_run c') ∧
        Status (cell_job c) = STATUS_NOT_STARTED ∧
        Status (cell_job c') = STATUS_COMPLETED ∧
        ExitCode (cell_job c') = (-1)%Z ∧ PID (cell_job c') = 0%Z ∧
        FinishTime (cell_job c') = 0%Z ∧
        (cell_run c = R_lookup →
         Error (cell_job c') = "Unable to find job for " +:+ CommandName (cell_job c)) ∧
        (∀ msg, i = IPipe (PipeErr msg) → Error (cell_job c') = msg).
Proof.
  intros Hreach Hc H Hcase.
  pose proof (Inv_reachable _ _ Hreach) as HI.
  pose proof (inv_cells _ HI _ _ Hc) as Hstat; unfold cell_ok in Hstat.
  destruct (inv2_cells _ (Inv2_reachable _ _ Hreach) _ _ Hc) as (Hf & _).
  exec_runner H; simplify_eq; rewrite Hpc in Hstat, Hf; simpl in Hstat, Hf.
  all: destruct Hcase as [[? ?]|(cmd & msg' & [?|?] & ?)]; simplify_eq.
  all: eexists; (split; [apply list_lookup_insert_eq; by eapply lookup_lt_Some|]).
  all: unfold early_return, not_started in *; simpl; destruct_and?.
  all: repeat split; auto; try congruence.
Qed.

Lemma handled_failures_complete_witness :
  ∃ w w' c c',
    run TrimSpaceASCII MoreExamples.found_run Examples.server0 = Some w ∧
    exec TrimSpaceASCII (StepRunner 0 (IPipe (PipeErr "pipe: too many open files"))) w
    = Some w' ∧
    heap w !! 0 = Some c ∧ heap w' !! 0 = Some c' ∧
    Status (cell_job c') = STATUS_COMPLETED ∧
    Error (cell_job c') = "pipe: too many open files".
Proof.
  assert (∃ w w' c c',
    run TrimSpaceASCII MoreExamples.found_run Examples.server0 = Some w ∧
    exec TrimSpaceASCII (StepRunner 0 (IPipe (PipeErr "pipe: too many open files"))) w
    = Some w' ∧
    heap w !! 0 = Some c ∧ heap w' !! 0 = Some c' ∧
    cell_run c = R_stdout_pipe "/bin/echo")
    as (w & w' & c & c' & Hr & He & Hc & Hc' & Hpc).
  { do 4 eexists. repeat (split; [vm_compute; reflexivity|]). vm_compute; reflexivity. }
  exists w, w', c, c'.
  split; [exact Hr|]. split; [exact He|]. split; [exact Hc|]. split; [exact Hc'|].
  assert (Hreach : reachable TrimSpaceASCII w) by (do 3 eexists; exact Hr).
  destruct (handled_failures_complete TrimSpaceASCII w 0 c _ w' Hreach Hc He)
    as (c1 & Hc1 & _ & _ & Hs & _ & _ & _ & _ & Hmsg).
  { right. exists "/bin/echo", "pipe: too many open files". split; [by left|done]. }
  rewrite Hc' in Hc1. injection Hc1 as <-.
  split; [exact Hs|]. exact (Hmsg _ eq_refl).
Defined.

(** ** Snapshots are never torn *)

(** X4. Every JobStatus a handler has returned, which CopyStatus took with
    the three mutexes of the job held, is consistent: NotStarted comes
    with PID 0, exit code −1, no error and no finish time; Running with a
    PID > 0, exit code −1, no error and no finish time; Completed either
    with PID 0, exit code −1 and no finish time (the process was never
    started) or with a PID > 0.  It is returned with a nil error. *)
Theorem snapshots_are_consistent TrimSpace w h call jc err :
  reachable TrimSpace w →
  handlers w !! h = Some (call, Returned (Some jc) err) →
  consistent jc ∧ err = None.
Proof.
  intros Hreach Hh.
  pose proof (Inv2_reachable _ _ Hreach) as HI2.
  destruct (inv2_handlers _ HI2 _ _ _ Hh) as (? & ? & _). done.
Qed.

Lemma snapshots_are_consistent_witness :
  ∃ w jc, run TrimSpaceASCII (Examples.before_snapshot ++ Examples.snapshot) Examples.server0
          = Some w ∧
          handlers w !! 1 = Some (CallGetJobStatus 0, Returned (Some jc) None) ∧
          Status jc = STATUS_RUNNING ∧ consistent jc.
Proof.
  assert (∃ w jc,
    run TrimSpaceASCII (Examples.before_snapshot ++ Examples.snapshot) Examples.server0
    = Some w ∧
    handlers w !! 1 = Some (CallGetJobStatus 0, Returned (Some jc) None) ∧
    Status jc = STATUS_RUNNING)
    as (w & jc & Hr & Hh & Hs).
  { do 2 eexists. repeat (split; [vm_compute; reflexivity|]). vm_compute; reflexivity. }
  exists w, jc. split; [exact Hr|]. split; [exact Hh|]. split; [exact Hs|].
  assert (Hreach : reachable TrimSpaceASCII w) by (do 3 eexists; exact Hr).
  exact (proj1 (snapshots_are_consistent TrimSpaceASCII w 1 _ jc None Hreach Hh)).
Defined.

(** ** The registry *)

Lemma run_registry_grows TrimSpace tr w w' id :
  run TrimSpace tr w = Some w' → is_Some (allJobs w !! id) → is_Some (allJobs w' !! id).
Proof.
  revert w. induction tr as [|e tr IH]; intros w; simpl.
  - by intros [= <-].
  - destruct (exec TrimSpace e w) as [w1|] eqn:He; [|done].
    intros Hr Hid. eapply IH; [done|]. by eapply exec_registry_grows.
Qed.

(** X5. The registry never forgets an id and never points to nothing: in
    every reachable state, an id that is registered refers to a job object
    whose JobID is that id, and along every run from there the id stays
    registered, to a job object with that JobID. *)
Theorem registry_never_forgets TrimSpace w tr w' id a :
  reachable TrimSpace w → run TrimSpace tr w = Some w' → allJobs w !! id = Some a →
  (∃ c, heap w !! a = Some c ∧ JobID (cell_job c) = id) ∧
  (∃ a' c', allJobs w' !! id = Some a' ∧ heap w' !! a' = Some c' ∧
            JobID (cell_job c') = id).
Proof.
  intros Hreach Hr Hid.
  pose proof (Inv_reachable _ _ Hreach) as HI.
  pose proof (Inv2_reachable _ _ Hreach) as HI2.
  split; [by eapply inv2_registry|].
  destruct (run_registry_grows _ _ _ _ id Hr) as [a' Ha']; [by eexists|].
  destruct (inv2_registry _ (Inv2_run _ _ _ _ Hr HI HI2) _ _ Ha') as (c' & Hc' & Hjid).
  by exists a', c'.
Qed.

Lemma registry_never_forgets_witness :
  ∃ w w' a' c',
    run TrimSpaceASCII (MoreExamples.submitted_run "echo-test") Examples.server0 = Some w ∧
    run TrimSpaceASCII (Examples.start_process ++ Examples.finish) w = Some w' ∧
    allJobs w !! 0%Z = Some 0 ∧
    allJobs w' !! 0%Z = Some a' ∧ heap w' !! a' = Some c' ∧ JobID (cell_job c') = 0%Z.
Proof.
  assert (∃ w w',
    run TrimSpaceASCII (MoreExamples.submitted_run "echo-test") Examples.server0 = Some w ∧
    run TrimSpaceASCII (Examples.start_process ++ Examples.finish) w = Some w' ∧
    allJobs w !! 0%Z = Some 0)
    as (w & w' & Hr & Hr' & Hid).
  { do 2 eexists. repeat (split; [vm_compute; reflexivity|]). vm_compute; reflexivity. }
  assert (Hreach : reachable TrimSpaceASCII w) by (do 3 eexists; exact Hr).
  destruct (registry_never_forgets TrimSpaceASCII w _ w' 0 0 Hreach Hr' Hid)
    as (_ & a' & c' & Ha' & Hc' & Hjid).
  exists w, w', a', c'.
  split; [exact Hr|]. split; [exact Hr'|]. split; [exact Hid|].
  split; [exact Ha'|]. split; [exact Hc'|exact Hjid].
Defined.

(** ** What the handlers answer *)

(** X6. The JobStatus that StartJob returns carries the JobName, the
    CommandName and the Arguments of the request, and its JobID is
    registered from then on: along every later run the registry holds, for
    that id, a job object with that JobID, so that a GetJobStatus on the
    returned id does not answer "Job not found". *)
Theorem StartJob_reply_is_registered TrimSpace w h details jc err tr w' :
  reachable TrimSpace w →
  handlers w !! h = Some (CallStartJob details, Returned (Some jc) err) →
  run TrimSpace tr w = Some w' →
  echoes details jc ∧
  ∃ a' c', allJobs w' !! JobID jc = Some a' ∧ heap w' !! a' = Some c' ∧
           JobID (cell_job c') = JobID jc.
Proof.
  intros Hreach Hh Hr.
  pose proof (Inv_reachable _ _ Hreach) as HI.
  pose proof (Inv2_reachable _ _ Hreach) as HI2.
  destruct (inv2_handlers _ HI2 _ _ _ Hh) as (_ & _ & _ & Hstart).
  destruct (Hstart _ eq_refl) as [He Hin]. split; [done|].
  destruct (run_registry_grows _ _ _ _ (JobID jc) Hr Hin) as [a' Ha'].
  destruct (inv2_registry _ (Inv2_run _ _ _ _ Hr HI HI2) _ _ Ha') as (c' & Hc' & Hjid).
  by exists a', c'.
Qed.

Lemma StartJob_reply_is_registered_witness :
  ∃ w jc a' c',
    run TrimSpaceASCII (MoreExamples.submitted_run "echo-test") Examples.server0 = Some w ∧
    handlers w !! 0 = Some (CallStartJob (Examples.request "echo-test"),
                            Returned (Some jc) None) ∧
    echoes (Examples.request "echo-test") jc ∧
    allJobs w !! JobID jc = Some a' ∧ heap w !! a' = Some c' ∧
    JobID (cell_job c') = JobID jc.
Proof.
  assert (∃ w jc,
    run TrimSpaceASCII (MoreExamples.submitted_run "echo-test") Examples.server0 = Some w ∧
    handlers w !! 0 = Some (CallStartJob (Examples.request "echo-test"),
                            Returned (Some jc) None))
    as (w & jc & Hr & Hh).
  { do 2 eexists. split; vm_compute; reflexivity. }
  assert (Hreach : reachable TrimSpaceASCII w) by (do 3 eexists; exact Hr).
  destruct (StartJob_reply_is_registered TrimSpaceASCII w 0 _ jc None [] w Hreach Hh eq_refl)
    as (He & a' & c' & Ha' & Hc' & Hjid).
  exists w, jc, a', c'.
  split; [exact Hr|]. split; [exact Hh|]. split; [exact He|].
  split; [exact Ha'|]. split; [exact Hc'|exact Hjid].
Defined.

(** X1. GetJobStatus on an id that is not registered returns the error
    "Job not found" for that id and no status; on a registered id its
    lookup finds the job object the registry holds for the id, and it
    returns, with a nil error, the copy of the status of that object,
    whose JobID is the id asked for, taken at the moment of the copy.  It
    returns nothing else, and none of its transitions changes the
    registry, a job object or a backing array. *)
Theorem GetJobStatus_answers TrimSpace w h id pc :
  reachable TrimSpace w → crashed w = false →
  handlers w !! h = Some (CallGetJobStatus id, pc) →
  (pc = GS_lookup id → allJobs w !! id = None →
   exec TrimSpace (StepHandler h INone) w
   = Some (set_handler h (CallGetJobStatus id)
             (Returned None (Some (ErrJobNotFound id))) w)) ∧
  (∀ a, pc = GS_lookup id → allJobs w !! id = Some a →
   exec TrimSpace (StepHandler h INone) w
   = Some (set_handler h (CallGetJobStatus id) (GS_copy a) w)) ∧
  (∀ a, pc = GS_copy a →
   ∃ c, heap w !! a = Some c ∧ JobID (cell_job c) = id ∧
        exec TrimSpace (StepHandler h INone) w
        = Some (set_handler h (CallGetJobStatus id)
                  (Returned (Some (cell_job c)) None) w)) ∧
  (∀ jc err, pc = Returned jc err →
   (jc = None ∧ err = Some (ErrJobNotFound id)) ∨
   (∃ j, jc = Some j ∧ err = None ∧ JobID j = id)) ∧
  (∀ i w', exec TrimSpace (StepHandler h i) w = Some w' →
   allJobs w' = allJobs w ∧ heap w' = heap w ∧ arrs w' = arrs w).
Proof.
  intros Hreach Hcr Hh.
  pose proof (Inv_reachable _ _ Hreach) as HI.
  destruct (inv_handlers _ HI _ _ _ Hh) as [_ Hserves].
  pose proof (inv2_handlers _ (Inv2_reachable _ _ Hreach) _ _ _ Hh) as Hm.
  split; [|split; [|split; [|split]]].
  - intros -> Hid. unfold exec. rewrite Hcr, Hh. simpl. by rewrite Hid.
  - intros a -> Hid. unfold exec. rewrite Hcr, Hh. simpl. by rewrite Hid.
  - intros a ->. simpl in Hm. destruct Hm as (c & Hc & Hid).
    exists c. split; [done|]. split; [by apply Hid|].
    unfold exec. rewrite Hcr, Hh. simpl. by rewrite Hc, CopyStatus_eq.
  - intros jc err ->. simpl in Hm. destruct jc as [j|].
    + right. destruct Hm as (_ & -> & Hid & _). exists j. by auto.
    + left. destruct Hm as (id' & [= <-] & Herr). split; [done|].
      destruct err as [[]|]; destruct_and?; by simplify_eq.
  - intros i w' H. exec_handler H; simplify_eq; try done.
Qed.

Lemma GetJobStatus_answers_witness :
  (∃ w, run TrimSpaceASCII (Examples.echo_run ++ [Call (CallGetJobStatus 7)]) Examples.server0
        = Some w ∧
        exec TrimSpaceASCII (StepHandler 1 INone) w
        = Some (set_handler 1 (CallGetJobStatus 7)
                  (Returned None (Some (ErrJobNotFound 7))) w)) ∧
  (∃ w, run TrimSpaceASCII (Examples.echo_run ++ [Call (CallGetJobStatus 0)]) Examples.server0
        = Some w ∧
        allJobs w !! 0%Z = Some 0 ∧
        exec TrimSpaceASCII (StepHandler 1 INone) w
        = Some (set_handler 1 (CallGetJobStatus 0) (GS_copy 0) w)) ∧
  (∃ w c, run TrimSpaceASCII (Examples.echo_run ++ MoreExamples.poll_lookup) Examples.server0
          = Some w ∧
          heap w !! 0 = Some c ∧ JobID (cell_job c) = 0%Z ∧
          exec TrimSpaceASCII (StepHandler 1 INone) w
          = Some (set_handler 1 (CallGetJobStatus 0)
                    (Returned (Some (cell_job c)) None) w)).
Proof.
  split; [|split].
  - assert (∃ w, run TrimSpaceASCII (Examples.echo_run ++ [Call (CallGetJobStatus 7)])
                   Examples.server0 = Some w ∧
                 crashed w = false ∧
                 handlers w !! 1 = Some (CallGetJobStatus 7, GS_lookup 7) ∧
                 allJobs w !! 7%Z = None)
      as (w & Hr & Hcr & Hh & Hid).
    { eexists. repeat (split; [vm_compute; reflexivity|]). vm_compute; reflexivity. }
    exists w. split; [exact Hr|].
    assert (Hreach : reachable TrimSpaceASCII w) by (do 3 eexists; exact Hr).
    exact (proj1 (GetJobStatus_answers TrimSpaceASCII w 1 7 _ Hreach Hcr Hh) eq_refl Hid).
  - assert (∃ w, run TrimSpaceASCII (Examples.echo_run ++ [Call (CallGetJobStatus 0)])
                   Examples.server0 = Some w ∧
                 crashed w = false ∧
                 handlers w !! 1 = Some (CallGetJobStatus 0, GS_lookup 0) ∧
                 allJobs w !! 0%Z = Some 0)
      as (w & Hr & Hcr & Hh & Hid).
    { eexists. repeat (split; [vm_compute; reflexivity|]). vm_compute; reflexivity. }
    exists w. split; [exact Hr|]. split; [exact Hid|].
    assert (Hreach : reachable TrimSpaceASCII w) by (do 3 eexists; exact Hr).
    exact (proj1 (proj2 (GetJobStatus_answers TrimSpaceASCII w 1 0 _ Hreach Hcr Hh))
             0 eq_refl Hid).
  - assert (∃ w, run TrimSpaceASCII (Examples.echo_run ++ MoreExamples.poll_lookup)
                   Examples.server0 = Some w ∧
                 crashed w = false ∧
                 handlers w !! 1 = Some (CallGetJobStatus 0, GS_copy 0))
      as (w & Hr & Hcr & Hh).
    { eexists. repeat (split; [vm_compute; reflexivity|]). vm_compute; reflexivity. }
    assert (Hreach : reachable TrimSpaceASCII w) by (do 3 eexists; exact Hr).
    destruct (proj1 (proj2 (proj2 (GetJobStatus_answers TrimSpaceASCII w 1 0 _ Hreach Hcr Hh)))
                0 eq_refl) as (c & Hc & Hid & He).
    exists w, c. split; [exact Hr|]. split; [exact Hc|]. split; [exact Hid|exact He].
Defined.

(** X9. Once StopJob has found the job, it does not lose it: after the
    signal has been delivered, the lookup of its final getJobStatus finds
    a job object for the id, so a StopJob that got past its first lookup
    never answers "Job not found".  What StopJob returns is an error about
    the id asked for and no status, or a status with that JobID and a nil
    error; the errors about the process are returned only for a registered
    id. *)
Theorem StopJob_keeps_its_job TrimSpace w h id pc :
  reachable TrimSpace w → crashed w = false →
  handlers w !! h = Some (CallStopJob id, pc) →
  (pc = GS_lookup id →
   ∃ a, allJobs w !! id = Some a ∧
        exec TrimSpace (StepHandler h INone) w
        = Some (set_handler h (CallStopJob id) (GS_copy a) w)) ∧
  (∀ jc err, pc = Returned jc err →
   match err with
   | Some (ErrJobNotFound id') | Some (ErrJobNotRunning id') => jc = None ∧ id' = id
   | Some (ErrProcessNotFound id' _ _) | Some (ErrKill id' _ _) =>
       jc = None ∧ id' = id ∧ is_Some (allJobs w !! id)
   | None => ∃ j, jc = Some j ∧ JobID j = id
   end).
Proof.
  intros Hreach Hcr Hh.
  pose proof (inv2_handlers _ (Inv2_reachable _ _ Hreach) _ _ _ Hh) as Hm.
  split.
  - intros ->. simpl in Hm. destruct Hm as [a Ha]; [by eexists|].
    exists a. split; [done|]. unfold exec. rewrite Hcr, Hh. simpl. by rewrite Ha.
  - intros jc err ->. simpl in Hm. destruct jc as [j|].
    + destruct Hm as (_ & -> & Hid & _). exists j. by auto.
    + destruct Hm as (id' & [= <-] & Herr).
      destruct err as [[]|]; destruct_and?; by simplify_eq.
Qed.

Lemma StopJob_keeps_its_job_witness :
  ∃ w a, run TrimSpaceASCII
           (MoreExamples.submitted_run "echo-test" ++ Examples.start_process ++
            MoreExamples.stop_signal) Examples.server0 = Some w ∧
         allJobs w !! 0%Z = Some a ∧
         exec TrimSpaceASCII (StepHandler 1 INone) w
         = Some (set_handler 1 (CallStopJob 0) (GS_copy a) w).
Proof.
  assert (∃ w, run TrimSpaceASCII
                 (MoreExamples.submitted_run "echo-test" ++ Examples.start_process ++
                  MoreExamples.stop_signal) Examples.server0 = Some w ∧
               crashed w = false ∧
               handlers w !! 1 = Some (CallStopJob 0, GS_lookup 0))
    as (w & Hr & Hcr & Hh).
  { eexists. repeat (split; [vm_compute; reflexivity|]). vm_compute; reflexivity. }
  assert (Hreach : reachable TrimSpaceASCII w) by (do 3 eexists; exact Hr).
  destruct (proj1 (StopJob_keeps_its_job TrimSpaceASCII w 1 0 _ Hreach Hcr Hh) eq_refl)
    as (a & Ha & He).
  exists w, a. split; [exact Hr|]. split; [exact Ha|exact He].
Defined.
